(** * pytesserae.score: Tesserae scoring, embedded and verified

    A shallow embedding of [src/pytesserae/score.py]: the score function
    [vanilla], the selector [_get_two_lowest], the position scan
    [_get_indices] and [find_distance].

    Conventions of the embedding.
    - A Python [int] is a [Z].
    - A Python [set] of tokens is the [list string] of its elements in the
      order in which the interpreter iterates over it; a set has no repeated
      element, which theorems state as [NoDup].
    - A Python [dict] of counts is a [gmap string Z].  Only the sum of its
      values is taken, which does not depend on their order.
    - A raised exception is the [Raise] case of [result]; evaluation order
      is the order of the binds.
    - A Python [float] is the exact rational ([Q]) it approximates, and
      [math.log] returns the real [ln] of its argument: rounding, overflow
      and underflow of binary64 arithmetic are not modelled, so a statement
      about a score is a statement in exact arithmetic.  The tests that
      decide whether an exception is raised ([== 0], [<= 0]) are the ones
      the interpreter makes, on these exact values. *)

From Stdlib Require Import ZArith QArith Qreals Reals Lra Lia.
From stdpp Require Import base option list gmap strings sorting.

Local Open Scope Z_scope.

(** ** Exceptions *)

Inductive exn : Set :=
  | KeyError
  | IndexError
  | ValueError
  | ZeroDivisionError.

Inductive result (A : Type) : Type :=
  | Ok (a : A)
  | Raise (e : exn).
Arguments Ok {A} a.
Arguments Raise {A} e.

#[global] Instance result_ret : MRet result := λ A a, Ok a.
#[global] Instance result_bind : MBind result := λ A B f c,
  match c with
  | Ok a => f a
  | Raise e => Raise e
  end.

(** ** The Python primitives the module uses *)

Module Py.

(** [l[i]] on a tuple or list, for an index [i >= 0]. *)
Definition index {A} (l : list A) (i : nat) : result A :=
  match l !! i with
  | Some x => Ok x
  | None => Raise IndexError
  end.

(** [d[k]] on a dict. *)
Definition getitem (d : gmap string Z) (k : string) : result Z :=
  match d !! k with
  | Some v => Ok v
  | None => Raise KeyError
  end.

(** [d.values()], as a list. *)
Definition values (d : gmap string Z) : list Z := (map_to_list d).*2.

(** [sum] of a list of ints. *)
Definition int_sum (l : list Z) : Z := fold_left Z.add l 0.

(** [sum] of a list of floats. *)
Definition float_sum (l : list Q) : Q := fold_left Qplus l 0%Q.

(** [a / b] on two ints. *)
Definition int_truediv (a b : Z) : result Q :=
  if decide (b = 0) then Raise ZeroDivisionError
  else Ok (inject_Z a / inject_Z b)%Q.

(** [x / y] with a float on one side (an int operand is converted). *)
Definition float_truediv (x y : Q) : result Q :=
  if Qeq_bool y 0 then Raise ZeroDivisionError else Ok (x / y)%Q.

(** [math.log(x)]. *)
Definition log (x : Q) : result R :=
  if Qle_bool x 0 then Raise ValueError else Ok (ln (Q2R x)).

(** [min(l)] on a list of ints. *)
Definition min (l : list Z) : result Z :=
  match l with
  | [] => Raise ValueError
  | x :: l' => Ok (fold_left Z.min l' x)
  end.

(** [[f(x) for x in l]] where [f] may raise. *)
Fixpoint list_comp {A B} (f : A → result B) (l : list A) : result (list B) :=
  match l with
  | [] => Ok []
  | x :: l' => y ← f x; ys ← list_comp f l'; Ok (y :: ys)
  end.

(** [for x in l: s = body(s, x)] where [body] may raise. *)
Fixpoint for_each {A S} (l : list A) (body : S → A → result S) (s : S)
    : result S :=
  match l with
  | [] => Ok s
  | x :: l' => s' ← body s x; for_each l' body s'
  end.

(** [enumerate(l)]. *)
Fixpoint enumerate_from {A} (i : Z) (l : list A) : list (Z * A) :=
  match l with
  | [] => []
  | x :: l' => (i, x) :: enumerate_from (i + 1) l'
  end.
Definition enumerate {A} (l : list A) : list (Z * A) := enumerate_from 0 l.

End Py.

(** ** [vanilla] *)

Definition vanilla (matching_terms : list string)
    (source_distance target_distance : Z)
    (source_counts target_counts : gmap string Z) : result R :=
  let target_size := Py.int_sum (Py.values target_counts) in
  let source_size := Py.int_sum (Py.values source_counts) in
  target_part ← Py.list_comp (λ t,
      c ← Py.getitem target_counts t;
      f ← Py.int_truediv c target_size;
      Py.float_truediv 1 f) matching_terms;
  source_part ← Py.list_comp (λ s,
      c ← Py.getitem source_counts s;
      f ← Py.int_truediv c source_size;
      Py.float_truediv 1 f) matching_terms;
  raw ← Py.float_truediv
      (Py.float_sum target_part + Py.float_sum source_part)%Q
      (inject_Z (target_distance + source_distance));
  Py.log raw.

(** ** [_get_two_lowest] *)

(** One round of the scan over [match_tuple[2:]]; the state is the pair
    [(lowest, next_lowest)] of (term, count) pairs. *)
Definition two_lowest_step (counts : gmap string Z)
    (st : (string * Z) * (string * Z)) (term : string)
    : result ((string * Z) * (string * Z)) :=
  let '(lowest, next_lowest) := st in
  term_count ← Py.getitem counts term;
  if decide (term_count < lowest.2) then Ok ((term, term_count), lowest)
  else if decide (term_count < next_lowest.2)
       then Ok (lowest, (term, term_count))
       else Ok (lowest, next_lowest).

Definition _get_two_lowest (matching_terms : list string)
    (counts : gmap string Z) : result (string * string) :=
  let match_tuple := matching_terms in
  t0 ← Py.index match_tuple 0;
  c0 ← Py.getitem counts t0;
  t1 ← Py.index match_tuple 1;
  c1 ← Py.getitem counts t1;
  let lowest := (t0, c0) in
  let next_lowest := (t1, c1) in
  let st := if decide (lowest.2 > next_lowest.2)
            then (next_lowest, lowest) else (lowest, next_lowest) in
  st' ← Py.for_each (drop 2 match_tuple) (two_lowest_step counts) st;
  Ok ((st'.1).1, (st'.2).1).

(** ** [_get_indices] *)

Definition _get_indices (term : string) (chunk : list string) : list Z :=
  fold_left
    (λ positions it,
       if decide (it.2 = term) then positions ++ [it.1] else positions)
    (Py.enumerate chunk) [].

(** ** [find_distance] *)

(** The inner and outer loops of the cross product. *)
Definition closer (pos1 : Z) (min_dist pos2 : Z) : Z :=
  let cur_dist := Z.abs (pos2 - pos1) in
  if decide (cur_dist < min_dist) then cur_dist else min_dist.

Definition cross_scan (term1_positions term2_positions : list Z)
    (min_dist : Z) : Z :=
  fold_left (λ min_dist pos1, fold_left (closer pos1) term2_positions min_dist)
    term1_positions min_dist.

Definition find_distance (matching_terms : list string)
    (chunk : list string) (counts : gmap string Z) : result Z :=
  if decide (length matching_terms = 1%nat) then
    term ← Py.index matching_terms 0;
    let positions := _get_indices term chunk in
    let inter_position_diffs :=
      (λ ij, ij.2 - ij.1) <$>
        zip (take (length positions - 1) positions) (drop 1 positions) in
    Py.min inter_position_diffs
  else
    terms ← _get_two_lowest matching_terms counts;
    let term1_positions := _get_indices terms.1 chunk in
    let term2_positions := _get_indices terms.2 chunk in
    p1 ← Py.index term1_positions 0;
    p2 ← Py.index term2_positions 0;
    let min_dist := Z.abs (p1 - p2) in
    Ok (cross_scan term1_positions term2_positions min_dist).

(** ** What the specification calls things *)

(** The total token count of a text: the sum of all values of its table. *)
Definition total (counts : gmap string Z) : Z :=
  Py.int_sum (Py.values counts).

(** Every term of [terms] is a key of [counts] with a positive count. *)
Definition positive_on (counts : gmap string Z) (terms : list string) : Prop :=
  ∀ t, t ∈ terms → ∃ c, counts !! t = Some c ∧ 0 < c.

(** Every term of [terms] is a key of [counts]. *)
Definition key_complete (counts : gmap string Z) (terms : list string) : Prop :=
  ∀ t, t ∈ terms → is_Some (counts !! t).

(** The count of a term that is a key of the table. *)
Definition count_of (counts : gmap string Z) (t : string) : Z :=
  default 0 (counts !! t).

(** The weight of one side: the sum over the matching terms of
    [total / counts[term]], the reciprocal of the term's frequency. *)
Definition weight (counts : gmap string Z) (terms : list string) : R :=
  foldr Rplus 0%R
    ((λ t, IZR (total counts) / IZR (count_of counts t))%R <$> terms).



(** The term [t] occurs in the chunk at the (0-based) index [p]. *)
Definition occurs_at (chunk : list string) (t : string) (p : Z) : Prop :=
  0 ≤ p ∧ chunk !! Z.to_nat p = Some t.

(** [t] has the smallest count among [terms]. *)
Definition lowest_in (counts : gmap string Z) (terms : list string)
    (t : string) : Prop :=
  t ∈ terms ∧ ∀ u, u ∈ terms → count_of counts t ≤ count_of counts u.

(** [t2] has the smallest count among [terms] once [t1] is left out. *)
Definition second_lowest_in (counts : gmap string Z) (terms : list string)
    (t1 t2 : string) : Prop :=
  t2 ∈ terms ∧ t2 ≠ t1
  ∧ ∀ u, u ∈ terms → u ≠ t1 → count_of counts t2 ≤ count_of counts u.

(** The counts of the terms are pairwise distinct. *)
Definition distinct_counts (counts : gmap string Z) (terms : list string)
    : Prop :=
  ∀ t u, t ∈ terms → u ∈ terms →
    count_of counts t = count_of counts u → t = u.

(** [d] is the least of the gaps between neighbours of [positions]. *)
Definition min_adjacent_gap (positions : list Z) (d : Z) : Prop :=
  (∃ i p q, positions !! i = Some p ∧ positions !! S i = Some q ∧ d = q - p)
  ∧ ∀ i p q, positions !! i = Some p → positions !! S i = Some q → d ≤ q - p.

(** What the scan of [_get_two_lowest] has established once the terms
    [seen] have been visited. *)
Definition two_lowest_inv (counts : gmap string Z) (seen : list string)
    (st : (string * Z) * (string * Z)) : Prop :=
  st.1.1 ∈ seen ∧ st.2.1 ∈ seen ∧ st.1.1 ≠ st.2.1
  ∧ counts !! st.1.1 = Some st.1.2 ∧ counts !! st.2.1 = Some st.2.2
  ∧ st.1.2 ≤ st.2.2
  ∧ ∀ t, t ∈ seen → t ≠ st.1.1 → t ≠ st.2.1 → st.2.2 ≤ count_of counts t.

(** The distances [|p2 - p1|] over the cross product of two lists. *)
Definition cross_distances (l1 l2 : list Z) : list Z :=
  p1 ← l1; (λ p2, Z.abs (p2 - p1)) <$> l2.

(** [d] is the least distance between a position of [t1] and one of [t2]. *)
Definition min_cross_distance (chunk : list string) (t1 t2 : string) (d : Z)
    : Prop :=
  (∃ p1 p2, occurs_at chunk t1 p1 ∧ occurs_at chunk t2 p2
            ∧ d = Z.abs (p1 - p2))
  ∧ ∀ p1 p2, occurs_at chunk t1 p1 → occurs_at chunk t2 p2 →
      d ≤ Z.abs (p1 - p2).

(** The number of times the term occurs in the chunk. *)
Definition occurrences (chunk : list string) (t : string) : nat :=
  length (filter (λ token, token = t) chunk).

(** The list [inter_position_diffs] of [find_distance]. *)
Definition gaps (positions : list Z) : list Z :=
  (λ ij, ij.2 - ij.1) <$>
    zip (take (length positions - 1) positions) (drop 1 positions).

(** The body of the loop of [_get_indices], and the loop started at index
    [i] on an empty list. *)
Definition scan_step (term : string) (positions : list Z) (it : Z * string)
    : list Z :=
  if decide (it.2 = term) then positions ++ [it.1] else positions.

Definition indices_from (term : string) (i : Z) (chunk : list string)
    : list Z :=
  fold_left (scan_step term) (Py.enumerate_from i chunk) [].

(** One of the two list comprehensions of [vanilla], on its own. *)
Definition reciprocal_frequencies (counts : gmap string Z)
    (terms : list string) : result (list Q) :=
  Py.list_comp (λ t,
      c ← Py.getitem counts t;
      f ← Py.int_truediv c (Py.int_sum (Py.values counts));
      Py.float_truediv 1 f) terms.

(** [t] is the leftmost term of [terms] with the smallest count. *)
Definition first_lowest (counts : gmap string Z) (terms : list string)
    (t : string) : Prop :=
  ∃ i : nat, terms !! i = Some t
    ∧ (∀ (j : nat) u, terms !! j = Some u →
         count_of counts t ≤ count_of counts u)
    ∧ (∀ (j : nat) u, (j < i)%nat → terms !! j = Some u →
         count_of counts t < count_of counts u).

(** [t2] is the leftmost term of [terms] with the smallest count once [t1]
    is left out. *)
Definition first_second_lowest (counts : gmap string Z) (terms : list string)
    (t1 t2 : string) : Prop :=
  ∃ k : nat, terms !! k = Some t2 ∧ t2 ≠ t1
    ∧ (∀ (j : nat) u, terms !! j = Some u → u ≠ t1 →
         count_of counts t2 ≤ count_of counts u)
    ∧ (∀ (j : nat) u, (j < k)%nat → terms !! j = Some u → u ≠ t1 →
         count_of counts t2 < count_of counts u).

(** The leftmost-minimum facts carried along the scan of
    [_get_two_lowest]. *)
Definition tie_inv (counts : gmap string Z) (seen : list string)
    (st : (string * Z) * (string * Z)) : Prop :=
  first_lowest counts seen st.1.1
  ∧ first_second_lowest counts seen st.1.1 st.2.1
  ∧ counts !! st.1.1 = Some st.1.2 ∧ counts !! st.2.1 = Some st.2.2.

(** The table in which every count is multiplied by [k]. *)
Definition scale_counts (k : Z) (counts : gmap string Z) : gmap string Z :=
  (λ c, k * c) <$> counts.

(** ** Running the code on the examples of the specification *)

Example get_indices_example :
  _get_indices "x" ["a"; "b"; "x"; "c"; "d"; "x"; "x"; "e"; "f"; "g"; "x"]
  = [2; 5; 6; 10].
Proof. reflexivity. Qed.

Example find_distance_single_example :
  find_distance ["x"]
    ["a"; "b"; "x"; "c"; "d"; "x"; "x"; "e"; "f"; "g"; "x"] ∅ = Ok 1.
Proof. reflexivity. Qed.

Example find_distance_cross_example :
  find_distance ["a"; "b"]
    ["a"; "c"; "c"; "c"; "b"; "c"; "c"; "c"; "c"; "c"; "a"; "b"]
    {[ "a" := 7; "b" := 3 ]} = Ok 1.
Proof. vm_compute. reflexivity. Qed.

Example get_two_lowest_example :
  _get_two_lowest ["a"; "b"; "c"] {[ "a" := 100; "b" := 5; "c" := 50 ]}
  = Ok ("b", "c").
Proof. vm_compute. reflexivity. Qed.

Example vanilla_missing_key_example :
  vanilla ["love"] 5 3 {[ "peace" := 9 ]} {[ "love" := 2; "war" := 8 ]}
  = Raise KeyError.
Proof. vm_compute. reflexivity. Qed.

(** ** Arithmetic of the idealised floats *)

Section FloatFacts.

Lemma Q2R_inject_Z (z : Z) : Q2R (inject_Z z) = IZR z.
Proof. unfold Q2R; simpl. lra. Qed.

Lemma Qeq_bool_false_R (q : Q) : Q2R q ≠ 0%R → Qeq_bool q 0 = false.
Proof.
  intros Hq. destruct (Qeq_bool q 0) eqn:E; [|done].
  apply Qeq_bool_eq, Qeq_eqR in E. rewrite RMicromega.Q2R_0 in E. done.
Qed.

Lemma Qeq_bool_true_R (q : Q) : Q2R q = 0%R → Qeq_bool q 0 = true.
Proof.
  intros Hq. apply Qeq_bool_iff, eqR_Qeq. by rewrite RMicromega.Q2R_0.
Qed.

Lemma Qle_bool_false_R (q : Q) : (0 < Q2R q)%R → Qle_bool q 0 = false.
Proof.
  intros Hq. destruct (Qle_bool q 0) eqn:E; [|done].
  apply Qle_bool_iff, Qle_Rle in E. rewrite RMicromega.Q2R_0 in E. lra.
Qed.

Lemma Q2R_float_sum_from (l : list Q) (a : Q) :
  Q2R (fold_left Qplus l a) = (Q2R a + foldr Rplus 0 (Q2R <$> l))%R.
Proof.
  revert a. induction l as [|q l IH]; intros a; csimpl.
  - lra.
  - rewrite IH, Q2R_plus. lra.
Qed.

Lemma Q2R_float_sum (l : list Q) :
  Q2R (Py.float_sum l) = foldr Rplus 0%R (Q2R <$> l).
Proof.
  unfold Py.float_sum. rewrite Q2R_float_sum_from, RMicromega.Q2R_0. lra.
Qed.

(** [1 / (c / size)] on a count and a size that are not zero. *)
Lemma reciprocal_frequency_ok (c size : Z) :
  c ≠ 0 → size ≠ 0 →
  ∃ q, (f ← Py.int_truediv c size; Py.float_truediv 1 f) = Ok q
       ∧ Q2R q = (IZR size / IZR c)%R.
Proof.
  intros Hc Hs. unfold Py.int_truediv.
  destruct (decide (size = 0)) as [->|_]; [lia|]. simpl.
  assert (HcR : IZR c ≠ 0%R) by by apply not_0_IZR.
  assert (HsR : IZR size ≠ 0%R) by by apply not_0_IZR.
  assert (Hs0 : ¬ (inject_Z size == 0)%Q).
  { intros E. apply Qeq_eqR in E.
    by rewrite Q2R_inject_Z, RMicromega.Q2R_0 in E. }
  assert (Hf : Q2R (inject_Z c / inject_Z size) = (IZR c / IZR size)%R).
  { rewrite Q2R_div by done. by rewrite !Q2R_inject_Z. }
  assert (Hfne : Q2R (inject_Z c / inject_Z size) ≠ 0%R).
  { rewrite Hf. unfold Rdiv. apply Rmult_integral_contrapositive_currified;
      [done | by apply Rinv_neq_0_compat]. }
  unfold Py.float_truediv. rewrite Qeq_bool_false_R by done.
  eexists; split; [done|].
  rewrite Q2R_div, Hf, RMicromega.Q2R_1.
  - by field.
  - intros E. apply Qeq_eqR in E. by rewrite RMicromega.Q2R_0 in E.
Qed.

(** A zero count makes the frequency [0.0], whose reciprocal is refused;
    a zero size is refused one division earlier. *)
Lemma reciprocal_frequency_zero (c size : Z) :
  c = 0 ∨ size = 0 →
  (f ← Py.int_truediv c size; Py.float_truediv 1 f)
  = Raise ZeroDivisionError.
Proof.
  intros Hz. unfold Py.int_truediv.
  destruct (decide (size = 0)) as [|Hs]; [done|].
  destruct Hz as [->|]; [|done]. simpl.
  unfold Py.float_truediv. rewrite Qeq_bool_true_R; [done|].
  assert (Hs0 : ¬ (inject_Z size == 0)%Q).
  { intros E. apply Qeq_eqR in E.
    rewrite Q2R_inject_Z, RMicromega.Q2R_0 in E. by apply eq_IZR in E. }
  rewrite Q2R_div by done. rewrite Q2R_inject_Z. lra.
Qed.

End FloatFacts.

(** ** The two sums of [vanilla] *)

Section Sides.

Variable counts : gmap string Z.

Lemma vanilla_sides mt sd td sc tc :
  vanilla mt sd td sc tc =
    (target_part ← reciprocal_frequencies tc mt;
     source_part ← reciprocal_frequencies sc mt;
     raw ← Py.float_truediv
         (Py.float_sum target_part + Py.float_sum source_part)%Q
         (inject_Z (td + sd));
     Py.log raw).
Proof. reflexivity. Qed.

Lemma reciprocal_frequencies_cons t terms :
  reciprocal_frequencies counts (t :: terms) =
    (y ← (c ← Py.getitem counts t;
          f ← Py.int_truediv c (total counts);
          Py.float_truediv 1 f);
     ys ← reciprocal_frequencies counts terms;
     Ok (y :: ys)).
Proof. reflexivity. Qed.

(** With a total and counts that are not zero, both divisions go through
    for every term that is a key. *)
Lemma reciprocal_frequencies_ok terms :
  total counts ≠ 0 →
  (∀ t, t ∈ terms → ∃ c, counts !! t = Some c ∧ c ≠ 0) →
  ∃ qs, reciprocal_frequencies counts terms = Ok qs
        ∧ Q2R <$> qs
          = (λ t, IZR (total counts) / IZR (count_of counts t))%R <$> terms.
Proof.
  intros Htot. induction terms as [|t terms IH]; intros Hpos.
  - by exists [].
  - destruct (Hpos t) as (c & Hc & Hc0); [left|].
    destruct IH as (qs & Hqs & Hmap).
    { intros u Hu. apply Hpos. by right. }
    destruct (reciprocal_frequency_ok c (total counts)) as (q & Hq & HqR);
      [done..|].
    exists (q :: qs). rewrite reciprocal_frequencies_cons.
    unfold Py.getitem. rewrite Hc. simpl. rewrite Hq. simpl.
    rewrite Hqs. simpl. split; [done|].
    f_equal; [|exact Hmap]. rewrite HqR. unfold count_of. by rewrite Hc.
Qed.


(** When every term is a key, only a division by zero can stop the
    comprehension, and a zero total does stop it. *)
Lemma reciprocal_frequencies_complete terms :
  key_complete counts terms →
  (∃ qs, reciprocal_frequencies counts terms = Ok qs
         ∧ (terms ≠ [] → total counts ≠ 0))
  ∨ reciprocal_frequencies counts terms = Raise ZeroDivisionError.
Proof.
  induction terms as [|t terms IH]; intros Hkeys.
  - left. by exists [].
  - rewrite reciprocal_frequencies_cons. unfold Py.getitem.
    destruct (Hkeys t) as [c Hc]; [left|]. rewrite Hc. simpl.
    destruct (decide (c = 0 ∨ total counts = 0)) as [Hz|Hnz].
    + right. by rewrite reciprocal_frequency_zero.
    + destruct (reciprocal_frequency_ok c (total counts)) as (q & Hq & _);
        [lia..|].
      rewrite Hq. simpl.
      destruct IH as [(qs & -> & _)| ->]; simpl.
      * intros u Hu. apply Hkeys. by right.
      * left. exists (q :: qs). split; [done|]. lia.
      * by right.
Qed.

End Sides.

(** ** The weights and the value of [vanilla] *)

Section Weights.

Variable counts : gmap string Z.

Lemma weight_cons t terms :
  weight counts (t :: terms)
  = (IZR (total counts) / IZR (count_of counts t) + weight counts terms)%R.
Proof. reflexivity. Qed.

Lemma positive_on_cons t terms :
  positive_on counts (t :: terms) →
  0 < count_of counts t ∧ positive_on counts terms.
Proof.
  intros Hpos. split.
  - destruct (Hpos t) as (c & Hc & Hc0); [left|].
    unfold count_of. by rewrite Hc.
  - intros u Hu. apply Hpos. by right.
Qed.

Lemma weight_nonneg terms :
  0 < total counts → positive_on counts terms →
  (0 <= weight counts terms)%R.
Proof.
  intros Htot. induction terms as [|t terms IH]; intros Hpos.
  - unfold weight; simpl; lra.
  - apply positive_on_cons in Hpos as [Hc Hpos]. rewrite weight_cons.
    apply IZR_lt in Hc, Htot.
    pose proof (Rdiv_lt_0_compat _ _ Htot Hc). specialize (IH Hpos). lra.
Qed.

Lemma weight_pos terms :
  terms ≠ [] → 0 < total counts → positive_on counts terms →
  (0 < weight counts terms)%R.
Proof.
  intros Hne Htot Hpos. destruct terms as [|t terms]; [done|].
  apply positive_on_cons in Hpos as [Hc Hpos]. rewrite weight_cons.
  pose proof (weight_nonneg terms Htot Hpos).
  apply IZR_lt in Hc, Htot.
  pose proof (Rdiv_lt_0_compat _ _ Htot Hc). lra.
Qed.

(** The sum the code takes is the weight of the specification. *)
Lemma reciprocal_frequencies_weight terms :
  0 < total counts → positive_on counts terms →
  ∃ qs, reciprocal_frequencies counts terms = Ok qs
        ∧ Q2R (Py.float_sum qs) = weight counts terms.
Proof.
  intros Htot Hpos.
  destruct (reciprocal_frequencies_ok counts terms) as (qs & Hqs & Hmap).
  - lia.
  - intros t Ht. destruct (Hpos t Ht) as (c & Hc & Hc0).
    exists c. split; [done | lia].
  - exists qs. split; [done|]. rewrite Q2R_float_sum, Hmap. done.
Qed.


End Weights.

Lemma vanilla_ok mt sd td sc tc :
  mt ≠ [] → 0 < td + sd →
  positive_on tc mt → positive_on sc mt →
  0 < total tc → 0 < total sc →
  vanilla mt sd td sc tc
  = Ok (ln ((weight tc mt + weight sc mt) / IZR (td + sd))).
Proof.
  intros Hne Hd Htc Hsc Htt Hts. rewrite vanilla_sides.
  destruct (reciprocal_frequencies_weight tc mt Htt Htc) as (tp & -> & Htp).
  destruct (reciprocal_frequencies_weight sc mt Hts Hsc) as (sp & -> & Hsp).
  simpl.
  pose proof (weight_pos tc mt Hne Htt Htc) as Hwt.
  pose proof (weight_pos sc mt Hne Hts Hsc) as Hws.
  assert (HdR : (0 < IZR (td + sd))%R) by by apply IZR_lt.
  assert (Hd0 : ¬ (inject_Z (td + sd) == 0)%Q).
  { intros E. apply Qeq_eqR in E.
    rewrite Q2R_inject_Z, RMicromega.Q2R_0 in E. lra. }
  assert (Hraw : Q2R ((Py.float_sum tp + Py.float_sum sp) / inject_Z (td + sd))
                 = ((weight tc mt + weight sc mt) / IZR (td + sd))%R).
  { rewrite Q2R_div by done. by rewrite Q2R_plus, Htp, Hsp, Q2R_inject_Z. }
  unfold Py.float_truediv.
  rewrite Qeq_bool_false_R by (rewrite Q2R_inject_Z; lra). simpl.
  unfold Py.log. rewrite Qle_bool_false_R, Hraw; [done|].
  rewrite Hraw. apply Rdiv_lt_0_compat; lra.
Qed.

(** ** Claims about [vanilla] *)



(** ** The total of a table *)

Section Totals.

Lemma int_sum_from (l : list Z) (a : Z) :
  fold_left Z.add l a = a + Py.int_sum l.
Proof.
  unfold Py.int_sum. revert a.
  induction l as [|x l IH]; intros a; simpl; [lia|].
  rewrite (IH (a + x)), (IH (0 + x)). lia.
Qed.

Lemma int_sum_cons (x : Z) (l : list Z) :
  Py.int_sum (x :: l) = x + Py.int_sum l.
Proof. unfold Py.int_sum at 1. simpl. apply int_sum_from. Qed.






End Totals.

Lemma key_complete_dec (counts : gmap string Z) (terms : list string) :
  key_complete counts terms ∨ ∃ t, t ∈ terms ∧ counts !! t = None.
Proof.
  induction terms as [|t terms [IH|(u & Hu & Hnone)]].
  - left. intros t Ht. by apply elem_of_nil in Ht.
  - destruct (counts !! t) as [c|] eqn:Hc.
    + left. intros u [->|Hu]%elem_of_cons; [by rewrite Hc | by apply IH].
    + right. exists t. split; [left | done].
  - right. exists u. split; [by right | done].
Qed.

Lemma Qplus_comm_eq (x y : Q) : (x + y)%Q = (y + x)%Q.
Proof.
  unfold Qplus. f_equal; [apply Z.add_comm | apply Pos.mul_comm].
Qed.



(** C7. With a non-empty set of matching terms that are all keys of both
    tables, [vanilla] raises [ZeroDivisionError], and so returns no value,
    whenever the two distances sum to zero or the values of one of the
    tables sum to zero. *)
Theorem C7_vanilla_zero_division :
  ∀ (matching_terms : list string) (source_distance target_distance : Z)
    (source_counts target_counts : gmap string Z),
    matching_terms ≠ [] →
    key_complete target_counts matching_terms →
    key_complete source_counts matching_terms →
    target_distance + source_distance = 0
      ∨ total target_counts = 0 ∨ total source_counts = 0 →
    vanilla matching_terms source_distance target_distance
      source_counts target_counts = Raise ZeroDivisionError.
Proof.
  intros mt sd td sc tc Hne Hkt Hks Hzero. rewrite vanilla_sides.
  destruct (reciprocal_frequencies_complete tc mt Hkt)
    as [(tp & -> & Htt)| ->]; [|done].
  destruct (reciprocal_frequencies_complete sc mt Hks)
    as [(sp & -> & Hts)| ->]; [|done].
  simpl. specialize (Htt Hne). specialize (Hts Hne).
  destruct Hzero as [-> | [|]]; [|done..].
  by vm_compute.
Qed.

(** C10. Swapping the two sides (distances and tables) does not change the
    score that [vanilla] returns. *)
Theorem C10_vanilla_symmetric :
  ∀ (matching_terms : list string) (source_distance target_distance : Z)
    (source_counts target_counts : gmap string Z) (score : R),
    vanilla matching_terms source_distance target_distance
      source_counts target_counts = Ok score →
    vanilla matching_terms target_distance source_distance
      target_counts source_counts = Ok score.
Proof.
  intros mt sd td sc tc score. rewrite !vanilla_sides.
  destruct (reciprocal_frequencies tc mt) as [tp|e]; [|done].
  destruct (reciprocal_frequencies sc mt) as [sp|e]; [|done].
  simpl. by rewrite (Z.add_comm sd td), (Qplus_comm_eq (Py.float_sum sp)).
Qed.

(** ** [_get_indices]: the positions of a term *)

Section Indices.

Variable term : string.

Lemma get_indices_from chunk :
  _get_indices term chunk = indices_from term 0 chunk.
Proof. reflexivity. Qed.

Lemma scan_acc (l : list (Z * string)) (acc : list Z) :
  fold_left (scan_step term) l acc = acc ++ fold_left (scan_step term) l [].
Proof.
  revert acc. induction l as [|[i tok] l IH]; intros acc; simpl.
  - by rewrite app_nil_r.
  - unfold scan_step at 2 4. simpl. destruct (decide (tok = term)); [|done].
    rewrite (IH (acc ++ [i])), (IH [i]). by rewrite <-app_assoc.
Qed.

Lemma indices_from_cons i tok chunk :
  indices_from term i (tok :: chunk) =
    if decide (tok = term) then i :: indices_from term (i + 1) chunk
    else indices_from term (i + 1) chunk.
Proof.
  unfold indices_from. simpl. unfold scan_step at 2. simpl.
  destruct (decide (tok = term)); [|done]. by rewrite scan_acc.
Qed.

Lemma elem_of_indices_from chunk i p :
  p ∈ indices_from term i chunk
  ↔ i ≤ p ∧ chunk !! Z.to_nat (p - i) = Some term.
Proof.
  revert i. induction chunk as [|tok chunk IH]; intros i.
  - unfold indices_from. simpl. split; [by intros ?%elem_of_nil|].
    by intros [_ ?].
  - rewrite indices_from_cons.
    assert (Hnext : i < p → Z.to_nat (p - i) = S (Z.to_nat (p - (i + 1))))
      by lia.
    destruct (decide (tok = term)) as [->|Hne].
    + rewrite elem_of_cons, IH. split.
      * intros [->|[Hle Hp]].
        -- split; [lia|]. by rewrite Z.sub_diag.
        -- split; [lia|]. rewrite Hnext by lia. done.
      * intros [Hle Hp]. destruct (decide (p = i)) as [|Hpi]; [by left|].
        right. split; [lia|]. rewrite Hnext in Hp by lia. done.
    + rewrite IH. split.
      * intros [Hle Hp]. split; [lia|]. rewrite Hnext by lia. done.
      * intros [Hle Hp]. destruct (decide (p = i)) as [->|Hpi].
        -- rewrite Z.sub_diag in Hp. simpl in Hp. congruence.
        -- split; [lia|]. rewrite Hnext in Hp by lia. done.
Qed.

Lemma indices_from_sorted chunk i :
  StronglySorted Z.lt (indices_from term i chunk).
Proof.
  revert i. induction chunk as [|tok chunk IH]; intros i.
  - constructor.
  - rewrite indices_from_cons. destruct (decide (tok = term)); [|done].
    constructor; [done|]. apply Forall_forall.
    intros p [Hp _]%elem_of_indices_from. lia.
Qed.

(** The positions returned are exactly the indices at which the term
    occurs, in ascending order. *)
Lemma elem_of_get_indices chunk p :
  p ∈ _get_indices term chunk ↔ occurs_at chunk term p.
Proof.
  rewrite get_indices_from, elem_of_indices_from, Z.sub_0_r. done.
Qed.

Lemma get_indices_sorted chunk :
  StronglySorted Z.lt (_get_indices term chunk).
Proof. apply indices_from_sorted. Qed.

End Indices.

(** Two tokens cannot occupy the same index. *)
Lemma occurs_at_inj chunk t u p :
  occurs_at chunk t p → occurs_at chunk u p → t = u.
Proof. intros [_ Ht] [_ Hu]. congruence. Qed.

(** ** Strictly ascending lists *)

Section Ascending.

Lemma ascending_lookup_lt (l : list Z) (i j : nat) (p q : Z) :
  StronglySorted Z.lt l → (i < j)%nat →
  l !! i = Some p → l !! j = Some q → p < q.
Proof.
  intros Hs. revert i j. induction Hs as [|x l Hs IH Hall]; intros i j Hij.
  - by rewrite lookup_nil.
  - destruct i as [|i], j as [|j]; simpl; try lia.
    + intros [= <-] Hq. rewrite Forall_forall in Hall. apply Hall.
      by eapply list_elem_of_lookup_2.
    + apply IH. lia.
Qed.

(** A strictly ascending list is determined by its elements. *)
Lemma ascending_unique (l1 l2 : list Z) :
  StronglySorted Z.lt l1 → StronglySorted Z.lt l2 →
  (∀ p, p ∈ l1 ↔ p ∈ l2) → l1 = l2.
Proof.
  intros Hs1 Hs2 Hel.
  assert (Hnd : ∀ l, StronglySorted Z.lt l → NoDup l).
  { induction 1 as [|x l _ IH Hall]; constructor; [|done].
    rewrite Forall_forall in Hall. intros Hx. specialize (Hall x Hx). lia. }
  assert (AntiSymm (=) Z.lt) by (intros x y ??; lia).
  apply (StronglySorted_unique Z.lt); [done..|].
  apply NoDup_Permutation; auto.
Qed.

End Ascending.

(** ** [find_distance] with one matching term *)

Section SingleTerm.

Lemma find_distance_single term chunk counts :
  find_distance [term] chunk counts = Py.min (gaps (_get_indices term chunk)).
Proof. reflexivity. Qed.

Lemma length_get_indices term chunk :
  length (_get_indices term chunk) = occurrences chunk term.
Proof.
  rewrite get_indices_from. unfold occurrences. generalize 0.
  induction chunk as [|tok chunk IH]; intros i; [done|].
  rewrite indices_from_cons, filter_cons.
  destruct (decide (tok = term)); simpl; by rewrite IH.
Qed.

Lemma lookup_adjacent (l : list Z) (i : nat) (p q : Z) :
  zip (take (length l - 1) l) (drop 1 l) !! i = Some (p, q)
  ↔ l !! i = Some p ∧ l !! S i = Some q.
Proof.
  rewrite lookup_zip_with_Some. split.
  - intros (x & y & [= -> ->] & [Hx _]%lookup_take_Some & Hy).
    by rewrite lookup_drop in Hy.
  - intros [Hp Hq]. exists p, q. split; [done|]. split.
    + apply lookup_take_Some. split; [done|].
      apply lookup_lt_Some in Hq. lia.
    + by rewrite lookup_drop.
Qed.

Lemma elem_of_gaps (l : list Z) (d : Z) :
  d ∈ gaps l
  ↔ ∃ i p q, l !! i = Some p ∧ l !! S i = Some q ∧ d = q - p.
Proof.
  unfold gaps. rewrite list_elem_of_fmap. split.
  - intros ([p q] & -> & (i & Hi)%list_elem_of_lookup).
    apply lookup_adjacent in Hi as [Hp Hq]. by exists i, p, q.
  - intros (i & p & q & Hp & Hq & ->). exists (p, q). split; [done|].
    apply list_elem_of_lookup. exists i. by apply lookup_adjacent.
Qed.

Lemma length_gaps (l : list Z) : length (gaps l) = (length l - 1)%nat.
Proof.
  unfold gaps.
  rewrite length_fmap, length_zip_with, length_take, length_drop. lia.
Qed.

Lemma fold_left_min_spec (l : list Z) (x : Z) :
  fold_left Z.min l x ∈ x :: l ∧ ∀ y, y ∈ x :: l → fold_left Z.min l x ≤ y.
Proof.
  revert x. induction l as [|z l IH]; intros x; simpl.
  - split; [left|]. intros y ->%list_elem_of_singleton. lia.
  - destruct (IH (Z.min x z)) as [Hin Hle]. split.
    + apply elem_of_cons in Hin as [Heq|Hin]; [|by do 2 right].
      rewrite Heq. destruct (Z.min_spec x z) as [[_ ->]|[_ ->]];
        [left | right; left].
    + intros y Hy. pose proof (Hle (Z.min x z) ltac:(left)).
      apply elem_of_cons in Hy as [->|[->|Hy]%elem_of_cons].
      * lia.
      * lia.
      * apply Hle. by right.
Qed.

(** [min] of the gaps: an error on fewer than two positions, the least
    gap otherwise. *)
Lemma min_gaps_few (l : list Z) :
  (length l < 2)%nat → Py.min (gaps l) = Raise ValueError.
Proof.
  intros Hl. pose proof (length_gaps l) as Hg.
  destruct (gaps l); [done|]. simpl in Hg. lia.
Qed.

Lemma min_gaps_ok (l : list Z) :
  (2 ≤ length l)%nat → ∃ d, Py.min (gaps l) = Ok d ∧ min_adjacent_gap l d.
Proof.
  intros Hl. pose proof (length_gaps l) as Hg.
  pose proof (elem_of_gaps l) as Hel.
  destruct (gaps l) as [|x g]; [simpl in Hg; lia|].
  destruct (fold_left_min_spec g x) as [Hin Hle].
  exists (fold_left Z.min g x). split; [done|]. split.
  - by apply Hel.
  - intros i p q Hp Hq. apply Hle, Hel. by exists i, p, q.
Qed.

End SingleTerm.

(** C3. With a single matching term that occurs at least twice in the
    chunk, [find_distance] returns the least gap between neighbours in the
    ascending list of the positions of the term; for a term at positions
    2, 5, 6 and 10 it returns 1. *)
Theorem C3_find_distance_single_term :
  (∀ (term : string) (chunk : list string) (counts : gmap string Z)
     (positions : list Z),
     StronglySorted Z.lt positions →
     (∀ p, p ∈ positions ↔ occurs_at chunk term p) →
     (2 ≤ occurrences chunk term)%nat →
     ∃ d, find_distance [term] chunk counts = Ok d
          ∧ min_adjacent_gap positions d)
  ∧ (∀ (term : string) (chunk : list string) (counts : gmap string Z),
       (∀ p, occurs_at chunk term p ↔ p ∈ [2; 5; 6; 10]) →
       find_distance [term] chunk counts = Ok 1).
Proof.
  assert (Hpos : ∀ term chunk positions,
            StronglySorted Z.lt positions →
            (∀ p, p ∈ positions ↔ occurs_at chunk term p) →
            _get_indices term chunk = positions).
  { intros term chunk positions Hs Hel.
    apply ascending_unique; [apply get_indices_sorted | done |].
    intros p. by rewrite elem_of_get_indices, Hel. }
  split.
  - intros term chunk counts positions Hs Hel Htwice.
    rewrite find_distance_single, (Hpos _ _ _ Hs Hel).
    apply min_gaps_ok.
    by rewrite <-(Hpos term chunk positions Hs Hel), length_get_indices.
  - intros term chunk counts Hel.
    rewrite find_distance_single, (Hpos term chunk [2; 5; 6; 10]); [done| |].
    + repeat constructor; lia.
    + intros p. by rewrite Hel.
Qed.

(** C8. With a single matching term that occurs fewer than two times in
    the chunk, [find_distance] raises an error ([ValueError], from [min] of
    an empty list) and returns no integer. *)
Theorem C8_find_distance_too_few :
  ∀ (term : string) (chunk : list string) (counts : gmap string Z),
    (occurrences chunk term < 2)%nat →
    find_distance [term] chunk counts = Raise ValueError.
Proof.
  intros term chunk counts Hfew. rewrite find_distance_single.
  apply min_gaps_few. by rewrite length_get_indices.
Qed.

(** ** [_get_two_lowest]: the scan and what it keeps *)

Section TwoLowest.

Variable counts : gmap string Z.

Lemma count_of_Some t c : counts !! t = Some c → count_of counts t = c.
Proof. intros Hc. unfold count_of. by rewrite Hc. Qed.

Lemma two_lowest_step_inv seen st term st' :
  two_lowest_inv counts seen st → term ∉ seen →
  two_lowest_step counts st term = Ok st' →
  two_lowest_inv counts (seen ++ [term]) st'.
Proof.
  destruct st as [[a ca] [b cb]].
  intros (Ha & Hb & Hab & Hca & Hcb & Hle & Hrest) Hnew. simpl in *.
  unfold two_lowest_step, Py.getitem.
  destruct (counts !! term) as [c|] eqn:Hc; [simpl|done].
  assert (Hta : term ≠ a) by (by intros ->).
  assert (Htb : term ≠ b) by (by intros ->).
  pose proof (count_of_Some _ _ Hc) as Hct.
  pose proof (count_of_Some _ _ Hcb) as Hcbt.
  assert (Hmem : ∀ t, t ∈ seen ++ [term] ↔ t ∈ seen ∨ t = term).
  { intros t. by rewrite elem_of_app, list_elem_of_singleton. }
  destruct (decide (c < ca)); [|destruct (decide (c < cb))];
    intros [= <-]; unfold two_lowest_inv; simpl;
    rewrite !Hmem; (split_and!; [by auto || lia ..|]); intros t Ht Hn1 Hn2;
    rewrite Hmem in Ht.
  - destruct Ht as [Ht|Ht]; [|done].
    destruct (decide (t = b)) as [->|Hnb]; [lia|].
    specialize (Hrest t Ht Hn2 Hnb). lia.
  - destruct Ht as [Ht|Ht]; [|done].
    destruct (decide (t = b)) as [->|Hnb]; [lia|].
    specialize (Hrest t Ht Hn1 Hnb). lia.
  - destruct Ht as [Ht| ->]; [by apply Hrest | lia].
Qed.

Lemma two_lowest_loop_inv rest seen st st' :
  two_lowest_inv counts seen st → NoDup (seen ++ rest) →
  Py.for_each rest (two_lowest_step counts) st = Ok st' →
  two_lowest_inv counts (seen ++ rest) st'.
Proof.
  revert seen st. induction rest as [|t rest IH]; intros seen st Hinv Hnd.
  - simpl. intros [= <-]. by rewrite app_nil_r.
  - simpl. destruct (two_lowest_step counts st t) as [st1|] eqn:Hstep;
      [simpl|done].
    rewrite cons_middle, app_assoc in Hnd |- *. apply IH; [|done].
    apply (two_lowest_step_inv seen st); [done| |done].
    apply NoDup_app in Hnd as [Hnd _].
    apply NoDup_app in Hnd as (_ & Hnd & _).
    intros Hin. apply (Hnd t Hin). left.
Qed.

Lemma two_lowest_loop_total rest st :
  key_complete counts rest →
  ∃ st', Py.for_each rest (two_lowest_step counts) st = Ok st'.
Proof.
  revert st. induction rest as [|t rest IH]; intros st Hkeys.
  - by exists st.
  - destruct (Hkeys t) as [c Hc]; [left|].
    assert (∃ st1, two_lowest_step counts st t = Ok st1) as [st1 Hst1].
    { destruct st as [lowest next_lowest].
      unfold two_lowest_step, Py.getitem. rewrite Hc. simpl.
      repeat case_decide; eauto. }
    simpl. rewrite Hst1. simpl. apply IH. intros u Hu. apply Hkeys.
    by right.
Qed.

(** On a key-complete table and two terms or more the selector returns. *)
Lemma get_two_lowest_total mt :
  (2 ≤ length mt)%nat → key_complete counts mt →
  ∃ a b, _get_two_lowest mt counts = Ok (a, b).
Proof.
  intros Hlen Hkeys. destruct mt as [|t0 [|t1 rest]]; simpl in Hlen; [lia..|].
  destruct (Hkeys t0) as [c0 Hc0]; [left|].
  destruct (Hkeys t1) as [c1 Hc1]; [right; left|].
  unfold _get_two_lowest, Py.index, Py.getitem. simpl.
  rewrite Hc0. simpl. rewrite Hc1. simpl.
  match goal with
  | |- context [Py.for_each ?r ?f ?s] =>
      destruct (two_lowest_loop_total r s) as [st' ->]
  end.
  - intros u Hu. apply Hkeys. by do 2 right.
  - simpl. eauto.
Qed.

(** Whatever the selector returns satisfies the invariant of the scan on
    the whole set. *)
Lemma get_two_lowest_inv mt a b :
  NoDup mt → _get_two_lowest mt counts = Ok (a, b) →
  ∃ ca cb, two_lowest_inv counts mt ((a, ca), (b, cb)).
Proof.
  intros Hnd. destruct mt as [|t0 [|t1 rest]]; [done| |].
  { unfold _get_two_lowest, Py.index, Py.getitem. simpl.
    by destruct (counts !! t0). }
  unfold _get_two_lowest, Py.index, Py.getitem. simpl.
  destruct (counts !! t0) as [c0|] eqn:Hc0; [simpl|done].
  destruct (counts !! t1) as [c1|] eqn:Hc1; [simpl|done].
  assert (Hne : t0 ≠ t1).
  { apply NoDup_cons in Hnd as [Hnd _]. intros ->. apply Hnd. left. }
  match goal with
  | |- context [Py.for_each ?r ?f ?s] =>
      destruct (Py.for_each r f s) as [[[a' ca] [b' cb]]|] eqn:Hloop;
        [simpl|done];
      pose proof (two_lowest_loop_inv r [t0; t1] s (a', ca, (b', cb)))
        as Hinv
  end.
  intros [= -> ->]. exists ca, cb. apply Hinv; [|done..].
  assert (Hmem : ∀ t, t ∈ [t0; t1] ↔ t = t0 ∨ t = t1).
  { intros t. rewrite elem_of_cons, list_elem_of_singleton. done. }
  destruct (decide (c0 > c1)); unfold two_lowest_inv; simpl;
    rewrite !Hmem; (split_and!; [by auto || lia ..|]);
    intros t Ht Hn1 Hn2; rewrite Hmem in Ht; by destruct Ht.
Qed.

Lemma two_lowest_inv_lowest mt a ca b cb :
  two_lowest_inv counts mt ((a, ca), (b, cb)) →
  lowest_in counts mt a ∧ second_lowest_in counts mt a b.
Proof.
  intros (Ha & Hb & Hab & Hca & Hcb & Hle & Hrest). simpl in *.
  apply count_of_Some in Hca, Hcb. repeat split; [done| |done|by auto|].
  - intros u Hu. destruct (decide (u = a)) as [->|Hua]; [lia|].
    destruct (decide (u = b)) as [->|Hub]; [lia|].
    specialize (Hrest u Hu Hua Hub). lia.
  - intros u Hu Hua. destruct (decide (u = b)) as [->|Hub]; [lia|].
    specialize (Hrest u Hu Hua Hub). lia.
Qed.

(** With pairwise distinct counts there is one lowest and one
    second-lowest term. *)
Lemma lowest_unique mt a a' :
  distinct_counts counts mt →
  lowest_in counts mt a → lowest_in counts mt a' → a = a'.
Proof.
  intros Hd [Ha Hla] [Ha' Hla']. apply Hd; [done..|].
  specialize (Hla a' Ha'). specialize (Hla' a Ha). lia.
Qed.

Lemma second_lowest_unique mt a b b' :
  distinct_counts counts mt →
  second_lowest_in counts mt a b → second_lowest_in counts mt a b' →
  b = b'.
Proof.
  intros Hd (Hb & Hba & Hlb) (Hb' & Hba' & Hlb'). apply Hd; [done..|].
  specialize (Hlb b' Hb' Hba'). specialize (Hlb' b Hb Hba). lia.
Qed.

End TwoLowest.

(** C4. On a set of two terms or more, enumerated in any order, and a table
    that has every term as a key, [_get_two_lowest] returns two terms of the
    set: first a term with the smallest count, then a different term with
    the smallest count among the others.  On counts a:100, b:5, c:50 it
    returns (b, c) for every enumeration of the set a, b, c. *)
Theorem C4_get_two_lowest :
  (∀ (matching_terms : list string) (counts : gmap string Z),
     NoDup matching_terms →
     (2 ≤ length matching_terms)%nat →
     key_complete counts matching_terms →
     ∃ lowest next_lowest,
       _get_two_lowest matching_terms counts = Ok (lowest, next_lowest)
       ∧ lowest_in counts matching_terms lowest
       ∧ second_lowest_in counts matching_terms lowest next_lowest)
  ∧ (∀ enumeration : list string,
       enumeration ≡ₚ ["a"; "b"; "c"] →
       _get_two_lowest enumeration {[ "a" := 100; "b" := 5; "c" := 50 ]}
       = Ok ("b", "c")).
Proof.
  assert (Hgen : ∀ mt counts, NoDup mt → (2 ≤ length mt)%nat →
            key_complete counts mt →
            ∃ a b, _get_two_lowest mt counts = Ok (a, b)
                   ∧ lowest_in counts mt a ∧ second_lowest_in counts mt a b).
  { intros mt counts Hnd Hlen Hkeys.
    destruct (get_two_lowest_total counts mt Hlen Hkeys) as (a & b & Hab).
    destruct (get_two_lowest_inv counts mt a b Hnd Hab) as (ca & cb & Hinv).
    exists a, b. split; [done|]. by eapply two_lowest_inv_lowest. }
  split; [exact Hgen|].
  intros l Hl. set (counts := {[ "a" := 100; "b" := 5; "c" := 50 ]}).
  assert (Hmem : ∀ t, t ∈ l ↔ t = "a" ∨ t = "b" ∨ t = "c").
  { intros t. rewrite Hl, !elem_of_cons, elem_of_nil. tauto. }
  destruct (Hgen l counts) as (x & y & -> & [Hx Hlow] & Hy & Hyx & Hsnd).
  - rewrite Hl. by apply (bool_decide_unpack _).
  - rewrite Hl. simpl. lia.
  - intros t [->|[->| ->]]%Hmem; [exists 100|exists 5|exists 50];
      by vm_compute.
  - assert (x = "b") as ->.
    { pose proof (Hlow "b" ltac:(apply Hmem; auto)) as Hb.
      apply Hmem in Hx as [->|[->| ->]]; [|done|]; vm_compute in Hb; done. }
    assert (y = "c") as ->; [|done].
    pose proof (Hsnd "c" ltac:(apply Hmem; auto) ltac:(done)) as Hc.
    apply Hmem in Hy as [->|[->| ->]]; [|done|done]. vm_compute in Hc. done.
Qed.

(** ** [find_distance] with two matching terms or more *)

Section CrossProduct.

Lemma closer_min (pos1 min_dist pos2 : Z) :
  closer pos1 min_dist pos2 = Z.min min_dist (Z.abs (pos2 - pos1)).
Proof. unfold closer. case_decide; lia. Qed.

Lemma inner_scan_min (pos1 : Z) (l2 : list Z) (m : Z) :
  fold_left (closer pos1) l2 m
  = fold_left Z.min ((λ p2, Z.abs (p2 - pos1)) <$> l2) m.
Proof.
  revert m. induction l2 as [|p2 l2 IH]; intros m; [done|].
  rewrite fmap_cons. simpl. by rewrite closer_min, IH.
Qed.

Lemma cross_scan_min (l1 l2 : list Z) (m : Z) :
  cross_scan l1 l2 m = fold_left Z.min (cross_distances l1 l2) m.
Proof.
  unfold cross_scan, cross_distances. revert m.
  induction l1 as [|p1 l1 IH]; intros m; [done|].
  rewrite bind_cons, fold_left_app. simpl. by rewrite inner_scan_min, IH.
Qed.

Lemma elem_of_cross_distances (l1 l2 : list Z) (d : Z) :
  d ∈ cross_distances l1 l2
  ↔ ∃ p1 p2, p1 ∈ l1 ∧ p2 ∈ l2 ∧ d = Z.abs (p2 - p1).
Proof.
  unfold cross_distances. rewrite list_elem_of_bind. split.
  - intros (p1 & (p2 & -> & Hp2)%list_elem_of_fmap & Hp1). by exists p1, p2.
  - intros (p1 & p2 & Hp1 & Hp2 & ->). exists p1. split; [|done].
    apply list_elem_of_fmap. by exists p2.
Qed.

(** Started from the distance of the two first positions, the scan ends
    on the least distance over all pairs. *)
Lemma cross_scan_spec (l1 l2 : list Z) (p1 p2 : Z) :
  l1 !! 0%nat = Some p1 → l2 !! 0%nat = Some p2 →
  (∃ q1 q2, q1 ∈ l1 ∧ q2 ∈ l2
            ∧ cross_scan l1 l2 (Z.abs (p1 - p2)) = Z.abs (q1 - q2))
  ∧ ∀ q1 q2, q1 ∈ l1 → q2 ∈ l2 →
      cross_scan l1 l2 (Z.abs (p1 - p2)) ≤ Z.abs (q1 - q2).
Proof.
  intros Hp1%list_elem_of_lookup_2 Hp2%list_elem_of_lookup_2.
  rewrite cross_scan_min.
  destruct (fold_left_min_spec (cross_distances l1 l2) (Z.abs (p1 - p2)))
    as [Hin Hle].
  split.
  - apply elem_of_cons in Hin as [->|Hin]; [by exists p1, p2|].
    apply elem_of_cross_distances in Hin as (q1 & q2 & Hq1 & Hq2 & ->).
    exists q1, q2. split_and!; [done..|lia].
  - intros q1 q2 Hq1 Hq2. replace (Z.abs (q1 - q2)) with (Z.abs (q2 - q1))
      by lia.
    apply Hle. right. apply elem_of_cross_distances. by exists q1, q2.
Qed.

Lemma find_distance_multi mt chunk counts t1 t2 :
  length mt ≠ 1%nat → _get_two_lowest mt counts = Ok (t1, t2) →
  find_distance mt chunk counts =
    (p1 ← Py.index (_get_indices t1 chunk) 0;
     p2 ← Py.index (_get_indices t2 chunk) 0;
     Ok (cross_scan (_get_indices t1 chunk) (_get_indices t2 chunk)
           (Z.abs (p1 - p2)))).
Proof.
  intros Hlen Hsel. unfold find_distance.
  destruct (decide (length mt = 1%nat)); [done|]. by rewrite Hsel.
Qed.

Lemma first_position chunk term p :
  occurs_at chunk term p →
  ∃ p0, Py.index (_get_indices term chunk) 0 = Ok p0
        ∧ _get_indices term chunk !! 0%nat = Some p0.
Proof.
  intros Hp%elem_of_get_indices. unfold Py.index.
  destruct (_get_indices term chunk) as [|p0 l]; [by apply elem_of_nil in Hp|].
  by exists p0.
Qed.

Lemma min_in (l : list Z) (d : Z) : Py.min l = Ok d → d ∈ l.
Proof.
  destruct l as [|x l]; [done|]. intros [= <-].
  apply fold_left_min_spec.
Qed.

End CrossProduct.

(** C2. With two matching terms or more, all keys of the table with
    pairwise distinct counts, [find_distance] returns the least [|p1 - p2|]
    over all pairs of a position [p1] of the term of lowest count and a
    position [p2] of the term of second-lowest count, when both terms occur
    in the chunk. *)
Theorem C2_find_distance_cross_product :
  ∀ (matching_terms : list string) (chunk : list string)
    (counts : gmap string Z) (term1 term2 : string),
    NoDup matching_terms →
    (2 ≤ length matching_terms)%nat →
    key_complete counts matching_terms →
    distinct_counts counts matching_terms →
    lowest_in counts matching_terms term1 →
    second_lowest_in counts matching_terms term1 term2 →
    (∃ p, occurs_at chunk term1 p) →
    (∃ p, occurs_at chunk term2 p) →
    ∃ d, find_distance matching_terms chunk counts = Ok d
         ∧ min_cross_distance chunk term1 term2 d.
Proof.
  intros mt chunk counts t1 t2 Hnd Hlen Hkeys Hdist Hlow Hsnd [p1 Hp1] [p2 Hp2].
  destruct (get_two_lowest_total counts mt Hlen Hkeys) as (a & b & Hab).
  destruct (get_two_lowest_inv counts mt a b Hnd Hab) as (ca & cb & Hinv).
  apply two_lowest_inv_lowest in Hinv as [Ha Hb].
  assert (a = t1) as -> by by eapply lowest_unique.
  assert (b = t2) as -> by by eapply second_lowest_unique.
  rewrite (find_distance_multi mt chunk counts t1 t2) by (lia || done).
  destruct (first_position chunk t1 p1 Hp1) as (q1 & -> & Hq1).
  destruct (first_position chunk t2 p2 Hp2) as (q2 & -> & Hq2).
  simpl. eexists. split; [done|].
  destruct (cross_scan_spec _ _ q1 q2 Hq1 Hq2) as [(r1 & r2 & Hr1 & Hr2 & ->) Hle].
  split.
  - exists r1, r2. by rewrite <-!elem_of_get_indices.
  - intros s1 s2 Hs1 Hs2. rewrite <-elem_of_get_indices in Hs1, Hs2.
    specialize (Hle s1 s2 Hs1 Hs2). lia.
Qed.

(** C9. Whenever [find_distance] returns a value on a set of matching
    terms, the value is a non-negative integer, and it is at least 1. *)
Theorem C9_find_distance_positive :
  ∀ (matching_terms : list string) (chunk : list string)
    (counts : gmap string Z) (d : Z),
    NoDup matching_terms →
    find_distance matching_terms chunk counts = Ok d →
    0 ≤ d ∧ 1 ≤ d.
Proof.
  intros mt chunk counts d Hnd Hd. cut (1 ≤ d); [lia|].
  destruct (decide (length mt = 1%nat)) as [Hone|Hmany].
  - destruct mt as [|term [|]]; [done| |done].
    rewrite find_distance_single in Hd.
    apply min_in, elem_of_gaps in Hd as (i & p & q & Hp & Hq & ->).
    pose proof (ascending_lookup_lt _ i (S i) p q
                  (get_indices_sorted term chunk) ltac:(lia) Hp Hq). lia.
  - destruct (_get_two_lowest mt counts) as [[t1 t2]|] eqn:Hsel.
    2: { unfold find_distance in Hd. rewrite Hsel in Hd. by case_decide. }
    rewrite (find_distance_multi mt chunk counts t1 t2) in Hd by done.
    destruct (get_two_lowest_inv counts mt t1 t2 Hnd Hsel)
      as (ca & cb & _ & _ & Hne & _). simpl in Hne.
    unfold Py.index in Hd.
    destruct (_get_indices t1 chunk !! 0%nat) as [q1|] eqn:Hq1; [|done].
    destruct (_get_indices t2 chunk !! 0%nat) as [q2|] eqn:Hq2; [|done].
    simpl in Hd. injection Hd as <-.
    destruct (cross_scan_spec _ _ q1 q2 Hq1 Hq2)
      as [(r1 & r2 & Hr1 & Hr2 & ->) _].
    apply elem_of_get_indices in Hr1, Hr2.
    assert (r1 ≠ r2); [|lia].
    intros ->. apply Hne. by eapply occurs_at_inj.
Qed.

(** ** The theorems at concrete inputs *)

(** Case analysis on the membership of a term in an explicit list. *)
Ltac each_term Ht :=
  repeat (apply elem_of_cons in Ht as [->|Ht]);
  try (by apply elem_of_nil in Ht).

(** C2 on the example of the specification: "a" at positions 0 and 10, "b"
    at positions 4 and 11, "b" the rarer of the two. *)
Lemma C2_find_distance_cross_product_witness :
  ∃ d, find_distance ["a"; "b"]
         ["a"; "c"; "c"; "c"; "b"; "c"; "c"; "c"; "c"; "c"; "a"; "b"]
         {[ "a" := 7; "b" := 3 ]} = Ok d
       ∧ min_cross_distance
           ["a"; "c"; "c"; "c"; "b"; "c"; "c"; "c"; "c"; "c"; "a"; "b"]
           "b" "a" d.
Proof.
  apply C2_find_distance_cross_product.
  - by apply (bool_decide_unpack _).
  - simpl. lia.
  - intros t Ht. each_term Ht; [exists 7 | exists 3]; by vm_compute.
  - intros t u Ht Hu. each_term Ht; each_term Hu; by vm_compute.
  - split; [by apply (bool_decide_unpack _)|].
    intros u Hu. each_term Hu; by vm_compute.
  - split_and!; [by apply (bool_decide_unpack _) | done |].
    intros u Hu Hne. each_term Hu; [by vm_compute | done].
  - exists 4. split; [lia | reflexivity].
  - exists 0. split; [lia | reflexivity].
Defined.

(** C3 on a chunk with "x" at positions 2, 5, 6 and 10. *)
Lemma C3_find_distance_single_term_witness :
  ∃ d, find_distance ["x"]
         ["a"; "b"; "x"; "c"; "d"; "x"; "x"; "e"; "f"; "g"; "x"] ∅ = Ok d
       ∧ min_adjacent_gap [2; 5; 6; 10] d.
Proof.
  apply (proj1 C3_find_distance_single_term).
  - repeat constructor; lia.
  - intros p. by rewrite <-elem_of_get_indices.
  - vm_compute. lia.
Defined.

(** C4 on the example of the specification. *)
Lemma C4_get_two_lowest_witness :
  ∃ lowest next_lowest,
    _get_two_lowest ["a"; "b"; "c"] {[ "a" := 100; "b" := 5; "c" := 50 ]}
    = Ok (lowest, next_lowest)
    ∧ lowest_in {[ "a" := 100; "b" := 5; "c" := 50 ]} ["a"; "b"; "c"] lowest
    ∧ second_lowest_in {[ "a" := 100; "b" := 5; "c" := 50 ]}
        ["a"; "b"; "c"] lowest next_lowest.
Proof.
  apply (proj1 C4_get_two_lowest).
  - by apply (bool_decide_unpack _).
  - simpl. lia.
  - intros t Ht. each_term Ht; [exists 100 | exists 5 | exists 50];
      by vm_compute.
Defined.




(** C7 at distances that sum to zero. *)
Lemma C7_vanilla_zero_division_witness :
  vanilla ["love"] 0 0
    {[ "love" := 1; "peace" := 9 ]} {[ "love" := 2; "war" := 8 ]}
  = Raise ZeroDivisionError.
Proof.
  apply C7_vanilla_zero_division.
  - done.
  - intros t Ht. each_term Ht. exists 2. by vm_compute.
  - intros t Ht. each_term Ht. exists 1. by vm_compute.
  - left. lia.
Defined.

(** C8 on a chunk in which the term occurs once. *)
Lemma C8_find_distance_too_few_witness :
  find_distance ["x"] ["a"; "x"; "b"] ∅ = Raise ValueError.
Proof.
  apply C8_find_distance_too_few. vm_compute. lia.
Defined.

(** C9 on the two examples of the specification. *)
Lemma C9_find_distance_positive_witness :
  (find_distance ["x"]
     ["a"; "b"; "x"; "c"; "d"; "x"; "x"; "e"; "f"; "g"; "x"] ∅ = Ok 1
   ∧ 0 ≤ 1 ∧ 1 ≤ 1)
  ∧ (find_distance ["a"; "b"]
       ["a"; "c"; "c"; "c"; "b"; "c"; "c"; "c"; "c"; "c"; "a"; "b"]
       {[ "a" := 7; "b" := 3 ]} = Ok 1
     ∧ 0 ≤ 1 ∧ 1 ≤ 1).
Proof.
  split; (split; [vm_compute; reflexivity|]).
  - apply (C9_find_distance_positive ["x"]
             ["a"; "b"; "x"; "c"; "d"; "x"; "x"; "e"; "f"; "g"; "x"] ∅ 1).
    + by apply (bool_decide_unpack _).
    + reflexivity.
  - apply (C9_find_distance_positive ["a"; "b"]
             ["a"; "c"; "c"; "c"; "b"; "c"; "c"; "c"; "c"; "c"; "a"; "b"]
             {[ "a" := 7; "b" := 3 ]} 1).
    + by apply (bool_decide_unpack _).
    + vm_compute. reflexivity.
Defined.

(** C10 on the example of the specification, sides swapped. *)
Lemma C10_vanilla_symmetric_witness :
  vanilla ["love"] 3 5
    {[ "love" := 2; "war" := 8 ]} {[ "love" := 1; "peace" := 9 ]}
  = Ok (ln ((weight {[ "love" := 2; "war" := 8 ]} ["love"]
             + weight {[ "love" := 1; "peace" := 9 ]} ["love"])
            / IZR (3 + 5))).
Proof.
  apply C10_vanilla_symmetric. apply vanilla_ok.
  - done.
  - lia.
  - intros t Ht. each_term Ht. exists 2. by vm_compute.
  - intros t Ht. each_term Ht. exists 1. by vm_compute.
  - by vm_compute.
  - by vm_compute.
Defined.

(** ** More on [_get_indices] *)

Section IndicesMore.

Variable term : string.

Lemma indices_from_nil i : indices_from term i [] = [].
Proof. reflexivity. Qed.

Lemma indices_from_shift chunk i :
  indices_from term i chunk = (λ p, i + p) <$> indices_from term 0 chunk.
Proof.
  revert i. induction chunk as [|tok chunk IH]; intros i; [done|].
  rewrite !indices_from_cons, (IH (i + 1)), (IH (0 + 1)).
  destruct (decide (tok = term)).
  - rewrite fmap_cons, <-list_fmap_compose. f_equal; [lia|].
    apply list_fmap_ext. intros _ p _. simpl. lia.
  - rewrite <-list_fmap_compose.
    apply list_fmap_ext. intros _ p _. simpl. lia.
Qed.

Lemma indices_from_app chunk1 chunk2 i :
  indices_from term i (chunk1 ++ chunk2)
  = indices_from term i chunk1
    ++ indices_from term (i + Z.of_nat (length chunk1)) chunk2.
Proof.
  revert i. induction chunk1 as [|tok chunk1 IH]; intros i.
  - rewrite app_nil_l, indices_from_nil, app_nil_l. simpl.
    by rewrite Z.add_0_r.
  - rewrite <-app_comm_cons, !indices_from_cons, IH.
    replace (i + 1 + Z.of_nat (length chunk1))
      with (i + Z.of_nat (length (tok :: chunk1))) by (simpl; lia).
    by destruct (decide (tok = term)).
Qed.

Lemma get_indices_app chunk1 chunk2 :
  _get_indices term (chunk1 ++ chunk2)
  = _get_indices term chunk1
    ++ ((λ p, Z.of_nat (length chunk1) + p) <$> _get_indices term chunk2).
Proof.
  rewrite !get_indices_from, indices_from_app. f_equal.
  rewrite Z.add_0_l. apply indices_from_shift.
Qed.

Lemma occurs_at_bound chunk t p :
  occurs_at chunk t p → 0 ≤ p < Z.of_nat (length chunk).
Proof. intros [Hp Hl]. apply lookup_lt_Some in Hl. lia. Qed.

End IndicesMore.

(** X1. [_get_indices] returns, in strictly ascending order, exactly the
    indices of the chunk that hold the term; each lies between 0 and the
    length of the chunk, and there are as many as the term has
    occurrences. *)
Theorem X1_get_indices_positions :
  ∀ (term : string) (chunk : list string),
    StronglySorted Z.lt (_get_indices term chunk)
    ∧ (∀ p, p ∈ _get_indices term chunk
            ↔ 0 ≤ p < Z.of_nat (length chunk)
              ∧ chunk !! Z.to_nat p = Some term)
    ∧ length (_get_indices term chunk) = occurrences chunk term.
Proof.
  intros term chunk. split_and!.
  - apply get_indices_sorted.
  - intros p. rewrite elem_of_get_indices. split.
    + intros Hp. split; [by eapply occurs_at_bound | apply Hp].
    + intros [[Hp _] Hl]. by split.
  - apply length_get_indices.
Qed.

(** X2. The positions of a term in two chunks put end to end are its
    positions in the first, followed by its positions in the second moved
    up by the length of the first. *)
Theorem X2_get_indices_app :
  ∀ (term : string) (chunk1 chunk2 : list string),
    _get_indices term (chunk1 ++ chunk2)
    = _get_indices term chunk1
      ++ ((λ p, Z.of_nat (length chunk1) + p) <$> _get_indices term chunk2).
Proof. intros term chunk1 chunk2. apply get_indices_app. Qed.

(** ** More on [_get_two_lowest]: when it raises, and how it breaks ties *)

Section TwoLowestMore.

Variable counts : gmap string Z.

Lemma two_lowest_step_missing st term :
  counts !! term = None → two_lowest_step counts st term = Raise KeyError.
Proof.
  intros Hnone. destruct st as [lowest next_lowest].
  unfold two_lowest_step, Py.getitem. by rewrite Hnone.
Qed.

Lemma two_lowest_step_present st term c :
  counts !! term = Some c → ∃ st', two_lowest_step counts st term = Ok st'.
Proof.
  intros Hc. destruct st as [lowest next_lowest].
  unfold two_lowest_step, Py.getitem. rewrite Hc. simpl.
  repeat case_decide; eauto.
Qed.

Lemma two_lowest_loop_missing rest st :
  (∃ t, t ∈ rest ∧ counts !! t = None) →
  Py.for_each rest (two_lowest_step counts) st = Raise KeyError.
Proof.
  revert st. induction rest as [|t rest IH]; intros st (u & Hu & Hnone).
  - by apply elem_of_nil in Hu.
  - simpl. destruct (counts !! t) as [c|] eqn:Hc.
    + destruct (two_lowest_step_present st t c Hc) as [st' ->]. simpl.
      apply IH. exists u. split; [|done].
      apply elem_of_cons in Hu as [->|Hu]; [congruence | done].
    + by rewrite two_lowest_step_missing.
Qed.

Lemma get_two_lowest_missing mt :
  (2 ≤ length mt)%nat → (∃ t, t ∈ mt ∧ counts !! t = None) →
  _get_two_lowest mt counts = Raise KeyError.
Proof.
  intros Hlen (u & Hu & Hnone).
  destruct mt as [|t0 [|t1 rest]]; simpl in Hlen; [lia..|].
  unfold _get_two_lowest, Py.index, Py.getitem. simpl.
  destruct (counts !! t0) as [c0|] eqn:Hc0; [simpl|done].
  destruct (counts !! t1) as [c1|] eqn:Hc1; [simpl|done].
  rewrite two_lowest_loop_missing; [done|].
  exists u. split; [|done].
  apply elem_of_cons in Hu as [->|Hu]; [congruence|].
  apply elem_of_cons in Hu as [->|Hu]; [congruence | done].
Qed.

Lemma get_two_lowest_short mt :
  (length mt < 2)%nat →
  (key_complete counts mt → _get_two_lowest mt counts = Raise IndexError)
  ∧ ∀ r, _get_two_lowest mt counts ≠ Ok r.
Proof.
  intros Hlen. destruct mt as [|t0 [|t1 rest]]; [..|simpl in Hlen; lia].
  - by split.
  - unfold _get_two_lowest, Py.index, Py.getitem. simpl. split.
    + intros Hkeys. destruct (Hkeys t0) as [c0 ->]; [left | done].
    + intros r. by destruct (counts !! t0).
Qed.

Lemma tie_step_inv seen st term st' :
  tie_inv counts seen st → term ∉ seen →
  two_lowest_step counts st term = Ok st' →
  tie_inv counts (seen ++ [term]) st'.
Proof.
  destruct st as [[a ca] [b cb]].
  intros ((i & Hi & Hale & Halt) & (k & Hk & Hba & Hble & Hblt) & Hca & Hcb)
    Hnew. simpl in *.
  unfold two_lowest_step, Py.getitem.
  destruct (counts !! term) as [c|] eqn:Hc; [simpl|done].
  pose proof (count_of_Some counts _ _ Hc) as Hct.
  pose proof (count_of_Some counts _ _ Hca) as Hcat.
  pose proof (count_of_Some counts _ _ Hcb) as Hcbt.
  assert (Hta : term ≠ a).
  { intros ->. apply Hnew. by eapply list_elem_of_lookup_2. }
  assert (Htb : term ≠ b).
  { intros ->. apply Hnew. by eapply list_elem_of_lookup_2. }
  pose proof (lookup_lt_Some _ _ _ Hi) as Hilt.
  pose proof (lookup_lt_Some _ _ _ Hk) as Hklt.
  assert (Hlast : (seen ++ [term]) !! length seen = Some term).
  { by rewrite lookup_app_r, Nat.sub_diag by lia. }
  assert (Hold : ∀ (j : nat) u, (j < length seen)%nat →
            (seen ++ [term]) !! j = Some u → seen !! j = Some u).
  { intros j u Hj. by rewrite lookup_app_l. }
  assert (Hcases : ∀ (j : nat) u, (seen ++ [term]) !! j = Some u →
            seen !! j = Some u ∨ (j = length seen ∧ u = term)).
  { intros j u Hj.
    apply lookup_snoc_Some in Hj as [[_ Hj]|[-> <-]]; [by left | by right]. }
  destruct (decide (c < ca)); [|destruct (decide (c < cb))];
    intros [= <-]; unfold tie_inv; simpl; split_and!; try done.
  - exists (length seen). split_and!; [done|..].
    + intros j u [Hj|[_ ->]]%Hcases; [|lia]. specialize (Hale j u Hj). lia.
    + intros j u Hjl Hj%Hold; [|done]. specialize (Hale j u Hj). lia.
  - exists i. split_and!; [by rewrite lookup_app_l|by auto|..].
    + intros j u [Hj|[_ ->]]%Hcases Hne; [|done]. by apply (Hale j).
    + intros j u Hji Hj%Hold Hne; [|lia]. by apply (Halt j).
  - exists i. split_and!; [by rewrite lookup_app_l|..].
    + intros j u [Hj|[_ ->]]%Hcases; [by apply (Hale j) | lia].
    + intros j u Hji Hj%Hold; [|lia]. by apply (Halt j).
  - exists (length seen). split_and!; [done|done|..].
    + intros j u [Hj|[_ ->]]%Hcases Hne; [|lia].
      specialize (Hble j u Hj Hne). lia.
    + intros j u Hjl Hj%Hold Hne; [|done].
      specialize (Hble j u Hj Hne). lia.
  - exists i. split_and!; [by rewrite lookup_app_l|..].
    + intros j u [Hj|[_ ->]]%Hcases; [by apply (Hale j)|].
      specialize (Hale k b Hk). lia.
    + intros j u Hji Hj%Hold; [|lia]. by apply (Halt j).
  - exists k. split_and!; [by rewrite lookup_app_l|done|..].
    + intros j u [Hj|[_ ->]]%Hcases Hne; [by apply (Hble j) | lia].
    + intros j u Hjk Hj%Hold Hne; [|lia]. by apply (Hblt j).
Qed.

Lemma tie_loop_inv rest seen st st' :
  tie_inv counts seen st → NoDup (seen ++ rest) →
  Py.for_each rest (two_lowest_step counts) st = Ok st' →
  tie_inv counts (seen ++ rest) st'.
Proof.
  revert seen st. induction rest as [|t rest IH]; intros seen st Hinv Hnd.
  - simpl. intros [= <-]. by rewrite app_nil_r.
  - simpl. destruct (two_lowest_step counts st t) as [st1|] eqn:Hstep;
      [simpl|done].
    rewrite cons_middle, app_assoc in Hnd |- *. apply IH; [|done].
    apply (tie_step_inv seen st); [done| |done].
    apply NoDup_app in Hnd as [Hnd _].
    apply NoDup_app in Hnd as (_ & Hnd & _).
    intros Hin. apply (Hnd t Hin). left.
Qed.

Lemma get_two_lowest_ties mt a b :
  NoDup mt → _get_two_lowest mt counts = Ok (a, b) →
  first_lowest counts mt a ∧ first_second_lowest counts mt a b.
Proof.
  intros Hnd. destruct mt as [|t0 [|t1 rest]]; [done| |].
  { unfold _get_two_lowest, Py.index, Py.getitem. simpl.
    by destruct (counts !! t0). }
  unfold _get_two_lowest, Py.index, Py.getitem. simpl.
  destruct (counts !! t0) as [c0|] eqn:Hc0; [simpl|done].
  destruct (counts !! t1) as [c1|] eqn:Hc1; [simpl|done].
  assert (Hne : t0 ≠ t1).
  { apply NoDup_cons in Hnd as [Hnd _]. intros ->. apply Hnd. left. }
  pose proof (count_of_Some counts _ _ Hc0) as Hc0t.
  pose proof (count_of_Some counts _ _ Hc1) as Hc1t.
  match goal with
  | |- context [Py.for_each ?r ?f ?s] =>
      destruct (Py.for_each r f s) as [[[a' ca] [b' cb]]|] eqn:Hloop;
        [simpl|done];
      pose proof (tie_loop_inv r [t0; t1] s (a', ca, (b', cb))) as Hinv
  end.
  intros [= -> ->].
  destruct Hinv as (Ha & Hb & _); [|done..|by split].
  assert (Hpair : ∀ (j : nat) u, [t0; t1] !! j = Some u →
            (j = 0%nat ∧ u = t0) ∨ (j = 1%nat ∧ u = t1)).
  { intros [|[|j]] u; simpl;
      [intros [= <-]; by left | intros [= <-]; by right | done]. }
  destruct (decide (c0 > c1)); unfold tie_inv; simpl; split_and!; try done.
  - exists 1%nat. split_and!; [done|..].
    + intros j u [[_ ->]|[_ ->]]%Hpair; lia.
    + intros j u Hj [[_ ->]|[-> ->]]%Hpair; lia.
  - exists 0%nat. split_and!; [done|done|..].
    + intros j u [[_ ->]|[_ ->]]%Hpair Hu; [lia|done].
    + intros j u Hj. lia.
  - exists 0%nat. split_and!; [done|..].
    + intros j u [[_ ->]|[_ ->]]%Hpair; lia.
    + intros j u Hj. lia.
  - exists 1%nat. split_and!; [done|by auto|..].
    + intros j u [[_ ->]|[_ ->]]%Hpair Hu; [done|lia].
    + intros j u Hj [[_ ->]|[-> ->]]%Hpair Hu; [done|lia].
Qed.

End TwoLowestMore.

(** X3. [_get_two_lowest] returns a pair exactly when there are two terms
    or more and every term is a key of the table. *)
Theorem X3_get_two_lowest_returns_iff :
  ∀ (matching_terms : list string) (counts : gmap string Z),
    (∃ r, _get_two_lowest matching_terms counts = Ok r)
    ↔ (2 ≤ length matching_terms)%nat ∧ key_complete counts matching_terms.
Proof.
  intros mt counts. split.
  - intros [r Hr].
    assert (Hlen : (2 ≤ length mt)%nat).
    { destruct (decide (2 ≤ length mt)%nat) as [|Hshort]; [done|].
      destruct (get_two_lowest_short counts mt) as [_ Hno]; [lia|].
      by destruct (Hno r). }
    split; [done|].
    destruct (key_complete_dec counts mt) as [|Hmiss]; [done|].
    by rewrite (get_two_lowest_missing counts mt Hlen Hmiss) in Hr.
  - intros [Hlen Hkeys].
    destruct (get_two_lowest_total counts mt Hlen Hkeys) as (a & b & Hab).
    by exists (a, b).
Qed.

(** X4. The errors of [_get_two_lowest]: with two terms or more, one of
    which is not a key of the table, it raises [KeyError]; with fewer than
    two terms, all keys of the table, it raises [IndexError]. *)
Theorem X4_get_two_lowest_errors :
  ∀ (matching_terms : list string) (counts : gmap string Z),
    ((2 ≤ length matching_terms)%nat →
     (∃ t, t ∈ matching_terms ∧ counts !! t = None) →
     _get_two_lowest matching_terms counts = Raise KeyError)
    ∧ ((length matching_terms < 2)%nat →
       key_complete counts matching_terms →
       _get_two_lowest matching_terms counts = Raise IndexError).
Proof.
  intros mt counts. split.
  - apply get_two_lowest_missing.
  - intros Hlen. by apply get_two_lowest_short.
Qed.

(** X5. How [_get_two_lowest] breaks ties: the first term returned is the
    leftmost term of the enumeration with the smallest count, and the second
    is the leftmost of the other terms with the smallest count among
    them. *)
Theorem X5_get_two_lowest_leftmost :
  ∀ (matching_terms : list string) (counts : gmap string Z)
    (lowest next_lowest : string),
    NoDup matching_terms →
    _get_two_lowest matching_terms counts = Ok (lowest, next_lowest) →
    first_lowest counts matching_terms lowest
    ∧ first_second_lowest counts matching_terms lowest next_lowest.
Proof. intros mt counts a b. apply get_two_lowest_ties. Qed.

(** ** More on [find_distance] *)

Section DistanceMore.

Lemma find_distance_multi_raise mt chunk counts e :
  length mt ≠ 1%nat → _get_two_lowest mt counts = Raise e →
  find_distance mt chunk counts = Raise e.
Proof.
  intros Hlen Hsel. unfold find_distance.
  destruct (decide (length mt = 1%nat)); [done|]. by rewrite Hsel.
Qed.

Lemma get_indices_absent term chunk :
  term ∉ chunk → _get_indices term chunk = [].
Proof.
  intros Habs. destruct (_get_indices term chunk) as [|p l] eqn:Hl; [done|].
  assert (Hp : p ∈ _get_indices term chunk) by (rewrite Hl; left).
  apply elem_of_get_indices in Hp as [_ Hp].
  destruct Habs. by eapply list_elem_of_lookup_2.
Qed.

(** The value computed from a selected pair of terms. *)
Lemma pair_distance_sym chunk a b :
  (p1 ← Py.index (_get_indices a chunk) 0;
   p2 ← Py.index (_get_indices b chunk) 0;
   Ok (cross_scan (_get_indices a chunk) (_get_indices b chunk)
         (Z.abs (p1 - p2))))
  = (p1 ← Py.index (_get_indices b chunk) 0;
     p2 ← Py.index (_get_indices a chunk) 0;
     Ok (cross_scan (_get_indices b chunk) (_get_indices a chunk)
           (Z.abs (p1 - p2)))).
Proof.
  unfold Py.index.
  destruct (_get_indices a chunk !! 0%nat) as [pa|] eqn:Ha;
    destruct (_get_indices b chunk !! 0%nat) as [pb|] eqn:Hb; simpl;
    try done.
  destruct (cross_scan_spec _ _ pa pb Ha Hb)
    as [(r1 & r2 & Hr1 & Hr2 & Hr) Hle].
  destruct (cross_scan_spec _ _ pb pa Hb Ha)
    as [(s1 & s2 & Hs1 & Hs2 & Hs) Hle'].
  specialize (Hle s2 s1 Hs2 Hs1). specialize (Hle' r2 r1 Hr2 Hr1).
  f_equal. lia.
Qed.

Lemma get_two_lowest_pair counts a b :
  key_complete counts [a; b] →
  _get_two_lowest [a; b] counts = Ok (a, b)
  ∨ _get_two_lowest [a; b] counts = Ok (b, a).
Proof.
  intros Hkeys.
  destruct (Hkeys a) as [ca Hca]; [left|].
  destruct (Hkeys b) as [cb Hcb]; [right; left|].
  unfold _get_two_lowest, Py.index, Py.getitem. simpl.
  rewrite Hca. simpl. rewrite Hcb. simpl.
  destruct (decide (ca > cb)); simpl; auto.
Qed.


End DistanceMore.

(** X6. With pairwise distinct counts the result of [find_distance], value
    or exception, does not depend on the order in which the set of matching
    terms is enumerated. *)
Theorem X6_find_distance_order_independent :
  ∀ (matching_terms matching_terms' : list string) (chunk : list string)
    (counts : gmap string Z),
    NoDup matching_terms →
    matching_terms ≡ₚ matching_terms' →
    distinct_counts counts matching_terms →
    find_distance matching_terms chunk counts
    = find_distance matching_terms' chunk counts.
Proof.
  intros mt mt' chunk counts Hnd Hperm Hdist.
  pose proof (Permutation_length Hperm) as Hlen.
  destruct (decide (length mt < 2)%nat) as [Hshort|Hlong].
  { destruct mt as [|t0 [|t1 rest]]; [..|simpl in Hshort; lia].
    - by apply Permutation_nil in Hperm as ->.
    - by apply Permutation_singleton_l in Hperm as <-. }
  assert (Hmem : ∀ t, t ∈ mt' ↔ t ∈ mt) by (intros t; by rewrite Hperm).
  destruct (key_complete_dec counts mt) as [Hkeys|(u & Hu & Hnone)].
  - assert (Hnd' : NoDup mt') by by rewrite <-Hperm.
    assert (Hkeys' : key_complete counts mt').
    { intros t Ht. apply Hkeys. by apply Hmem. }
    destruct (get_two_lowest_total counts mt) as (a & b & Hab);
      [lia | done |].
    destruct (get_two_lowest_total counts mt') as (a' & b' & Hab');
      [lia | done |].
    destruct (get_two_lowest_inv counts mt a b Hnd Hab) as (ca & cb & Hinv).
    destruct (get_two_lowest_inv counts mt' a' b' Hnd' Hab')
      as (ca' & cb' & Hinv').
    apply two_lowest_inv_lowest in Hinv as [Ha Hb].
    apply two_lowest_inv_lowest in Hinv' as [[Ha' Hla'] (Hb' & Hne' & Hlb')].
    assert (a' = a) as ->.
    { apply (lowest_unique counts mt); [done| |done].
      split; [by apply Hmem|]. intros t Ht. apply Hla'. by apply Hmem. }
    assert (b' = b) as ->.
    { apply (second_lowest_unique counts mt a); [done| |done].
      split_and!; [by apply Hmem | done |].
      intros t Ht. apply Hlb'. by apply Hmem. }
    rewrite (find_distance_multi mt chunk counts a b) by (lia || done).
    by rewrite (find_distance_multi mt' chunk counts a b) by (lia || done).
  - rewrite (find_distance_multi_raise mt chunk counts KeyError); [|lia|].
    + rewrite (find_distance_multi_raise mt' chunk counts KeyError);
        [done | lia |].
      apply get_two_lowest_missing; [lia|]. exists u. by rewrite Hmem.
    + apply get_two_lowest_missing; [lia|]. by exists u.
Qed.

(** X7. [find_distance] raises [IndexError] on an empty set of matching
    terms, and on two terms or more when one of the two terms selected does
    not occur in the chunk. *)
Theorem X7_find_distance_index_error :
  (∀ (chunk : list string) (counts : gmap string Z),
     find_distance [] chunk counts = Raise IndexError)
  ∧ (∀ (matching_terms : list string) (chunk : list string)
       (counts : gmap string Z) (term1 term2 : string),
       length matching_terms ≠ 1%nat →
       _get_two_lowest matching_terms counts = Ok (term1, term2) →
       term1 ∉ chunk ∨ term2 ∉ chunk →
       find_distance matching_terms chunk counts = Raise IndexError).
Proof.
  split; [done|].
  intros mt chunk counts t1 t2 Hlen Hsel Habs.
  rewrite (find_distance_multi mt chunk counts t1 t2) by done.
  destruct Habs as [Habs|Habs]; rewrite (get_indices_absent _ _ Habs).
  - done.
  - unfold Py.index. by destruct (_get_indices t1 chunk !! 0%nat).
Qed.

(** X8. A distance returned by [find_distance] is smaller than the length
    of the chunk. *)
Theorem X8_find_distance_below_length :
  ∀ (matching_terms : list string) (chunk : list string)
    (counts : gmap string Z) (d : Z),
    find_distance matching_terms chunk counts = Ok d →
    d ≤ Z.of_nat (length chunk) - 1.
Proof.
  intros mt chunk counts d Hd.
  destruct (decide (length mt = 1%nat)) as [Hone|Hmany].
  - destruct mt as [|term [|]]; [done| |done].
    rewrite find_distance_single in Hd.
    apply min_in, elem_of_gaps in Hd as (i & p & q & Hp & Hq & ->).
    apply list_elem_of_lookup_2, elem_of_get_indices, occurs_at_bound in Hp, Hq.
    lia.
  - destruct (_get_two_lowest mt counts) as [[t1 t2]|] eqn:Hsel.
    2: { by rewrite (find_distance_multi_raise mt chunk counts e) in Hd. }
    rewrite (find_distance_multi mt chunk counts t1 t2) in Hd by done.
    unfold Py.index in Hd.
    destruct (_get_indices t1 chunk !! 0%nat) as [q1|] eqn:Hq1; [|done].
    destruct (_get_indices t2 chunk !! 0%nat) as [q2|] eqn:Hq2; [|done].
    simpl in Hd. injection Hd as <-.
    destruct (cross_scan_spec _ _ q1 q2 Hq1 Hq2)
      as [(r1 & r2 & Hr1 & Hr2 & ->) _].
    apply elem_of_get_indices, occurs_at_bound in Hr1, Hr2. lia.
Qed.

(** X9. With exactly two matching terms, both keys of the table, the result
    of [find_distance] does not depend on the counts: two tables that hold
    both terms give the same value or the same exception. *)
Theorem X9_find_distance_two_terms :
  ∀ (a b : string) (chunk : list string) (counts counts' : gmap string Z),
    key_complete counts [a; b] →
    key_complete counts' [a; b] →
    find_distance [a; b] chunk counts = find_distance [a; b] chunk counts'.
Proof.
  intros a b chunk counts counts' Hkeys Hkeys'.
  assert (Hlen : length [a; b] ≠ 1%nat) by done.
  destruct (get_two_lowest_pair counts a b Hkeys) as [Hsel|Hsel];
    destruct (get_two_lowest_pair counts' a b Hkeys') as [Hsel'|Hsel'];
    rewrite (find_distance_multi [a; b] chunk counts _ _ Hlen Hsel),
      (find_distance_multi [a; b] chunk counts' _ _ Hlen Hsel');
    first [done | apply pair_distance_sym].
Qed.

(** X10. Appending tokens to a chunk never increases the distance: when
    [find_distance] returns on a chunk it returns on every extension of the
    chunk to the right, with a distance that is not greater. *)
Theorem X10_find_distance_extension :
  ∀ (matching_terms : list string) (chunk extra : list string)
    (counts : gmap string Z) (d : Z),
    find_distance matching_terms chunk counts = Ok d →
    ∃ d', find_distance matching_terms (chunk ++ extra) counts = Ok d'
          ∧ d' ≤ d.
Proof.
  intros mt chunk extra counts d Hd.
  destruct (decide (length mt = 1%nat)) as [Hone|Hmany].
  - destruct mt as [|term [|]]; [done| |done].
    rewrite find_distance_single in Hd. rewrite find_distance_single.
    rewrite get_indices_app.
    set (l := _get_indices term chunk) in *.
    set (l' := (λ p, Z.of_nat (length chunk) + p) <$> _get_indices term extra).
    apply min_in, elem_of_gaps in Hd as (i & p & q & Hp & Hq & ->).
    destruct (min_gaps_ok (l ++ l')) as (d' & Hd' & _ & Hle).
    { rewrite length_app. apply lookup_lt_Some in Hq. lia. }
    exists d'. split; [done|]. apply (Hle i).
    + by apply lookup_app_l_Some.
    + by apply lookup_app_l_Some.
  - destruct (_get_two_lowest mt counts) as [[t1 t2]|] eqn:Hsel.
    2: { by rewrite (find_distance_multi_raise mt chunk counts e) in Hd. }
    rewrite (find_distance_multi mt chunk counts t1 t2) in Hd by done.
    rewrite (find_distance_multi mt (chunk ++ extra) counts t1 t2) by done.
    rewrite !get_indices_app. unfold Py.index in *.
    destruct (_get_indices t1 chunk !! 0%nat) as [q1|] eqn:Hq1; [|done].
    destruct (_get_indices t2 chunk !! 0%nat) as [q2|] eqn:Hq2; [|done].
    simpl in Hd. injection Hd as <-.
    rewrite (lookup_app_l_Some _ _ _ _ Hq1). simpl.
    rewrite (lookup_app_l_Some _ _ _ _ Hq2). simpl.
    eexists. split; [done|].
    destruct (cross_scan_spec _ _ q1 q2 Hq1 Hq2)
      as [(r1 & r2 & Hr1 & Hr2 & ->) _].
    eapply cross_scan_spec.
    + by apply lookup_app_l_Some.
    + by apply lookup_app_l_Some.
    + apply elem_of_app. by left.
    + apply elem_of_app. by left.
Qed.

(** ** More on [vanilla]: the inputs on which it raises, and a bound *)

Section VanillaMore.

Lemma Qle_bool_true_R (q : Q) : (Q2R q <= 0)%R → Qle_bool q 0 = true.
Proof.
  intros Hq. apply Qle_bool_iff, Rle_Qle. by rewrite RMicromega.Q2R_0.
Qed.

Lemma inject_Z_zero_test (d : Z) :
  Qeq_bool (inject_Z d) 0 = bool_decide (d = 0).
Proof.
  case_bool_decide as Hd.
  - subst. reflexivity.
  - apply Qeq_bool_false_R. rewrite Q2R_inject_Z. by apply not_0_IZR.
Qed.


(** A matching term counted zero times stops the comprehension of a
    key-complete table with a division by zero. *)
Lemma reciprocal_frequencies_zero counts terms :
  key_complete counts terms →
  (∃ t, t ∈ terms ∧ counts !! t = Some 0) →
  reciprocal_frequencies counts terms = Raise ZeroDivisionError.
Proof.
  induction terms as [|t terms IH]; intros Hkeys (u & Hu & Hzero).
  - by apply elem_of_nil in Hu.
  - rewrite reciprocal_frequencies_cons. unfold Py.getitem.
    destruct (Hkeys t) as [c Hc]; [left|]. rewrite Hc. simpl.
    destruct (decide (c = 0 ∨ total counts = 0)) as [Hz|Hnz].
    + by rewrite reciprocal_frequency_zero.
    + destruct (reciprocal_frequency_ok c (total counts)) as (q & Hq & _);
        [lia..|].
      rewrite Hq. simpl. rewrite IH; [done| |].
      * intros v Hv. apply Hkeys. by right.
      * exists u. split; [|done].
        apply elem_of_cons in Hu as [->|Hu]; [|done].
        rewrite Hc in Hzero. injection Hzero as ->. lia.
Qed.


End VanillaMore.

(** X11. On an empty set of matching terms [vanilla] returns no value: it
    raises [ZeroDivisionError] when the two distances sum to zero and
    [ValueError], from the logarithm of zero, otherwise. *)
Theorem X11_vanilla_no_terms :
  ∀ (source_distance target_distance : Z)
    (source_counts target_counts : gmap string Z),
    vanilla [] source_distance target_distance source_counts target_counts
    = if decide (target_distance + source_distance = 0)
      then Raise ZeroDivisionError else Raise ValueError.
Proof.
  intros sd td sc tc. rewrite vanilla_sides.
  change (reciprocal_frequencies tc []) with (@Ok (list Q) []).
  change (reciprocal_frequencies sc []) with (@Ok (list Q) []).
  simpl. unfold Py.float_truediv. rewrite inject_Z_zero_test.
  destruct (decide (td + sd = 0)) as [Hd|Hd].
  - by rewrite bool_decide_eq_true_2.
  - rewrite bool_decide_eq_false_2 by done. simpl.
    unfold Py.log. rewrite Qle_bool_true_R; [done|].
    rewrite Q2R_div.
    + rewrite Q2R_plus, Q2R_float_sum. simpl. lra.
    + intros E. apply Qeq_eqR in E.
      rewrite Q2R_inject_Z, RMicromega.Q2R_0 in E. by apply eq_IZR in E.
Qed.

(** X12. When every matching term is a key of both tables and one of them
    is counted zero times in one table, [vanilla] raises
    [ZeroDivisionError]. *)
Theorem X12_vanilla_zero_count :
  ∀ (matching_terms : list string) (source_distance target_distance : Z)
    (source_counts target_counts : gmap string Z),
    key_complete target_counts matching_terms →
    key_complete source_counts matching_terms →
    (∃ t, t ∈ matching_terms
          ∧ (target_counts !! t = Some 0 ∨ source_counts !! t = Some 0)) →
    vanilla matching_terms source_distance target_distance
      source_counts target_counts = Raise ZeroDivisionError.
Proof.
  intros mt sd td sc tc Hkt Hks (t & Ht & Hzero). rewrite vanilla_sides.
  destruct (reciprocal_frequencies_complete tc mt Hkt)
    as [(tp & Htp & _)| ->]; [|done].
  destruct Hzero as [Hz|Hz].
  - rewrite reciprocal_frequencies_zero in Htp; [done..|]. by exists t.
  - rewrite Htp. simpl. rewrite reciprocal_frequencies_zero; [done..|].
    by exists t.
Qed.




(** ** The further theorems at concrete inputs *)

Lemma X3_get_two_lowest_returns_iff_witness :
  ∃ r, _get_two_lowest ["a"; "b"; "c"]
         {[ "a" := 100; "b" := 5; "c" := 50 ]} = Ok r.
Proof.
  apply (proj2 (X3_get_two_lowest_returns_iff _ _)). split.
  - simpl. lia.
  - intros t Ht. each_term Ht; [exists 100 | exists 5 | exists 50];
      by vm_compute.
Defined.

Lemma X4_get_two_lowest_errors_witness :
  _get_two_lowest ["a"; "b"] {[ "a" := 1 ]} = Raise KeyError
  ∧ _get_two_lowest ["a"] {[ "a" := 1 ]} = Raise IndexError.
Proof.
  split.
  - apply (proj1 (X4_get_two_lowest_errors _ _)).
    + simpl. lia.
    + exists "b". split; [right; left | by vm_compute].
  - apply (proj2 (X4_get_two_lowest_errors _ _)).
    + simpl. lia.
    + intros t Ht. each_term Ht. exists 1. by vm_compute.
Defined.

(** Three terms with the same count: the first two of the enumeration are
    returned, in that order. *)
Lemma X5_get_two_lowest_leftmost_witness :
  first_lowest {[ "a" := 5; "b" := 5; "c" := 5 ]} ["a"; "b"; "c"] "a"
  ∧ first_second_lowest {[ "a" := 5; "b" := 5; "c" := 5 ]}
      ["a"; "b"; "c"] "a" "b".
Proof.
  apply X5_get_two_lowest_leftmost.
  - by apply (bool_decide_unpack _).
  - vm_compute. reflexivity.
Defined.

Lemma X6_find_distance_order_independent_witness :
  find_distance ["a"; "b"]
    ["a"; "c"; "c"; "c"; "b"; "c"; "c"; "c"; "c"; "c"; "a"; "b"]
    {[ "a" := 7; "b" := 3 ]}
  = find_distance ["b"; "a"]
      ["a"; "c"; "c"; "c"; "b"; "c"; "c"; "c"; "c"; "c"; "a"; "b"]
      {[ "a" := 7; "b" := 3 ]}.
Proof.
  apply X6_find_distance_order_independent.
  - by apply (bool_decide_unpack _).
  - apply perm_swap.
  - intros t u Ht Hu. each_term Ht; each_term Hu; by vm_compute.
Defined.

Lemma X7_find_distance_index_error_witness :
  find_distance ["a"; "b"] ["a"; "c"] {[ "a" := 7; "b" := 3 ]}
  = Raise IndexError.
Proof.
  apply (proj2 X7_find_distance_index_error
           ["a"; "b"] ["a"; "c"] {[ "a" := 7; "b" := 3 ]} "b" "a").
  - done.
  - vm_compute. reflexivity.
  - left. by apply (bool_decide_unpack _).
Defined.

Lemma X8_find_distance_below_length_witness :
  1 ≤ Z.of_nat
        (length ["a"; "b"; "x"; "c"; "d"; "x"; "x"; "e"; "f"; "g"; "x"]) - 1.
Proof.
  apply (X8_find_distance_below_length ["x"]
           ["a"; "b"; "x"; "c"; "d"; "x"; "x"; "e"; "f"; "g"; "x"] ∅ 1).
  reflexivity.
Defined.

Lemma X9_find_distance_two_terms_witness :
  find_distance ["a"; "b"]
    ["a"; "c"; "c"; "c"; "b"; "c"; "c"; "c"; "c"; "c"; "a"; "b"]
    {[ "a" := 7; "b" := 3 ]}
  = find_distance ["a"; "b"]
      ["a"; "c"; "c"; "c"; "b"; "c"; "c"; "c"; "c"; "c"; "a"; "b"]
      {[ "a" := 1; "b" := 100 ]}.
Proof.
  apply X9_find_distance_two_terms.
  - intros t Ht. each_term Ht; [exists 7 | exists 3]; by vm_compute.
  - intros t Ht. each_term Ht; [exists 1 | exists 100]; by vm_compute.
Defined.

Lemma X10_find_distance_extension_witness :
  ∃ d', find_distance ["x"]
          (["a"; "x"; "b"; "b"; "x"] ++ ["x"; "c"]) ∅ = Ok d'
        ∧ d' ≤ 3.
Proof.
  apply X10_find_distance_extension. reflexivity.
Defined.

Lemma X12_vanilla_zero_count_witness :
  vanilla ["a"] 1 1 {[ "a" := 1 ]} {[ "a" := 0; "b" := 3 ]}
  = Raise ZeroDivisionError.
Proof.
  apply X12_vanilla_zero_count.
  - intros t Ht. each_term Ht. exists 0. by vm_compute.
  - intros t Ht. each_term Ht. exists 1. by vm_compute.
  - exists "a". split; [left | left; by vm_compute].
Defined.




(** ** What the results depend on *)

Section Dependence.

Lemma two_lowest_step_agree counts counts' st term :
  counts !! term = counts' !! term →
  two_lowest_step counts st term = two_lowest_step counts' st term.
Proof.
  intros Heq. destruct st as [lowest next_lowest].
  unfold two_lowest_step, Py.getitem. by rewrite Heq.
Qed.

Lemma two_lowest_loop_agree counts counts' rest st :
  (∀ t, t ∈ rest → counts !! t = counts' !! t) →
  Py.for_each rest (two_lowest_step counts) st
  = Py.for_each rest (two_lowest_step counts') st.
Proof.
  revert st. induction rest as [|t rest IH]; intros st Heq; [done|].
  simpl. rewrite (two_lowest_step_agree counts counts') by (apply Heq; left).
  destruct (two_lowest_step counts' st t) as [st1|]; [simpl|done].
  apply IH. intros u Hu. apply Heq. by right.
Qed.

Lemma get_two_lowest_agree counts counts' mt :
  (∀ t, t ∈ mt → counts !! t = counts' !! t) →
  _get_two_lowest mt counts = _get_two_lowest mt counts'.
Proof.
  intros Heq. destruct mt as [|t0 [|t1 rest]]; [done| |].
  - unfold _get_two_lowest, Py.index, Py.getitem. simpl.
    by rewrite (Heq t0) by left.
  - unfold _get_two_lowest, Py.index, Py.getitem. simpl.
    rewrite (Heq t0) by left. rewrite (Heq t1) by (right; left).
    destruct (counts' !! t0) as [c0|]; [simpl|done].
    destruct (counts' !! t1) as [c1|]; [simpl|done].
    rewrite (two_lowest_loop_agree counts counts'); [done|].
    intros u Hu. apply Heq. by do 2 right.
Qed.

Lemma int_sum_scale (k : Z) (l : list Z) :
  Py.int_sum ((λ c, k * c) <$> l) = k * Py.int_sum l.
Proof.
  induction l as [|x l IH]; [unfold Py.int_sum; simpl; lia|].
  rewrite fmap_cons, !int_sum_cons, IH. lia.
Qed.

Lemma total_scale (k : Z) (counts : gmap string Z) :
  total (scale_counts k counts) = k * total counts.
Proof.
  unfold total, scale_counts, Py.values.
  rewrite map_to_list_fmap, <-list_fmap_compose, <-int_sum_scale.
  by rewrite <-list_fmap_compose.
Qed.

Lemma count_of_scale (k : Z) (counts : gmap string Z) (t : string) :
  count_of (scale_counts k counts) t = k * count_of counts t.
Proof.
  unfold count_of, scale_counts. rewrite lookup_fmap.
  destruct (counts !! t); simpl; lia.
Qed.

Lemma positive_on_scale (k : Z) counts terms :
  0 < k → positive_on counts terms →
  positive_on (scale_counts k counts) terms.
Proof.
  intros Hk Hpos t Ht. destruct (Hpos t Ht) as (c & Hc & Hc0).
  exists (k * c). unfold scale_counts. rewrite lookup_fmap, Hc.
  split; [done | lia].
Qed.

Lemma weight_scale (k : Z) counts terms :
  0 < k → positive_on counts terms →
  weight (scale_counts k counts) terms = weight counts terms.
Proof.
  intros Hk. induction terms as [|t terms IH]; intros Hpos; [done|].
  apply positive_on_cons in Hpos as [Hc Hpos].
  rewrite !weight_cons, IH by done. f_equal.
  rewrite total_scale, count_of_scale, !mult_IZR.
  apply IZR_lt in Hk, Hc. field. lra.
Qed.

End Dependence.

(** X16. [find_distance] reads the table at the matching terms only: two
    tables that agree on every matching term, present or absent, give the
    same value or the same exception. *)
Theorem X16_find_distance_reads_matching_terms :
  ∀ (matching_terms : list string) (chunk : list string)
    (counts counts' : gmap string Z),
    (∀ t, t ∈ matching_terms → counts !! t = counts' !! t) →
    find_distance matching_terms chunk counts
    = find_distance matching_terms chunk counts'.
Proof.
  intros mt chunk counts counts' Heq. unfold find_distance.
  by rewrite (get_two_lowest_agree counts counts' mt Heq).
Qed.

(** X17. The score depends on the counts through the frequencies only:
    multiplying all counts of the source table by a positive integer, and
    all counts of the target table by another, does not change the score
    (matching terms non-empty with positive counts, positive totals and
    combined distance). *)
Theorem X17_vanilla_scale_invariant :
  ∀ (matching_terms : list string) (source_distance target_distance : Z)
    (source_counts target_counts : gmap string Z) (ks kt : Z),
    matching_terms ≠ [] →
    0 < ks → 0 < kt →
    0 < target_distance + source_distance →
    positive_on target_counts matching_terms →
    positive_on source_counts matching_terms →
    0 < total target_counts → 0 < total source_counts →
    vanilla matching_terms source_distance target_distance
      (scale_counts ks source_counts) (scale_counts kt target_counts)
    = vanilla matching_terms source_distance target_distance
        source_counts target_counts.
Proof.
  intros mt sd td sc tc ks kt Hne Hks Hkt Hd Htc Hsc Htt Hts.
  rewrite !vanilla_ok; try done.
  - by rewrite !weight_scale.
  - by apply positive_on_scale.
  - by apply positive_on_scale.
  - rewrite total_scale. lia.
  - rewrite total_scale. lia.
Qed.


(** ** Moving a chunk *)

Section Padding.

Variable k : Z.

Lemma gaps_shift (l : list Z) : gaps ((λ p, k + p) <$> l) = gaps l.
Proof.
  unfold gaps.
  rewrite length_fmap, <-fmap_take, <-fmap_drop, <-prod_map_zip.
  rewrite <-list_fmap_compose. apply list_fmap_ext.
  intros _ [p q] _. simpl. lia.
Qed.

Lemma cross_distances_shift (l1 l2 : list Z) :
  cross_distances ((λ p, k + p) <$> l1) ((λ p, k + p) <$> l2)
  = cross_distances l1 l2.
Proof.
  unfold cross_distances. induction l1 as [|p1 l1 IH]; [done|].
  rewrite fmap_cons, !bind_cons, IH. f_equal.
  rewrite <-list_fmap_compose. apply list_fmap_ext.
  intros _ p2 _. simpl. f_equal. lia.
Qed.

Lemma pair_distance_shift (l1 l2 : list Z) :
  (p1 ← Py.index ((λ p, k + p) <$> l1) 0;
   p2 ← Py.index ((λ p, k + p) <$> l2) 0;
   Ok (cross_scan ((λ p, k + p) <$> l1) ((λ p, k + p) <$> l2)
         (Z.abs (p1 - p2))))
  = (p1 ← Py.index l1 0;
     p2 ← Py.index l2 0;
     Ok (cross_scan l1 l2 (Z.abs (p1 - p2)))).
Proof.
  unfold Py.index. rewrite !list_lookup_fmap.
  destruct (l1 !! 0%nat) as [p1|]; [simpl|done].
  destruct (l2 !! 0%nat) as [p2|]; [simpl|done].
  rewrite !cross_scan_min, cross_distances_shift. do 2 f_equal. lia.
Qed.

End Padding.

Lemma get_indices_padded term before chunk after :
  term ∉ before → term ∉ after →
  _get_indices term (before ++ chunk ++ after)
  = (λ p, Z.of_nat (length before) + p) <$> _get_indices term chunk.
Proof.
  intros Hb Ha.
  rewrite !get_indices_app, (get_indices_absent _ _ Hb),
    (get_indices_absent _ _ Ha).
  by rewrite fmap_nil, app_nil_r, app_nil_l.
Qed.

(** X19. The distance depends on relative positions only: tokens that are
    not matching terms, put before and after the chunk, change neither the
    value nor the exception of [find_distance]. *)
Theorem X19_find_distance_padding :
  ∀ (matching_terms : list string) (before chunk after : list string)
    (counts : gmap string Z),
    NoDup matching_terms →
    (∀ t, t ∈ matching_terms → (t ∉ before) ∧ (t ∉ after)) →
    find_distance matching_terms (before ++ chunk ++ after) counts
    = find_distance matching_terms chunk counts.
Proof.
  intros mt before chunk after counts Hnd Hpad.
  destruct (decide (length mt = 1%nat)) as [Hone|Hmany].
  - destruct mt as [|term [|]]; [done| |done].
    destruct (Hpad term) as [Hb Ha]; [left|].
    rewrite !find_distance_single, (get_indices_padded _ _ _ _ Hb Ha).
    by rewrite gaps_shift.
  - destruct (_get_two_lowest mt counts) as [[t1 t2]|e] eqn:Hsel.
    + destruct (get_two_lowest_inv counts mt t1 t2 Hnd Hsel)
        as (ca & cb & Ht1 & Ht2 & _). simpl in Ht1, Ht2.
      destruct (Hpad t1 Ht1) as [Hb1 Ha1]. destruct (Hpad t2 Ht2) as [Hb2 Ha2].
      rewrite !(find_distance_multi mt _ counts t1 t2) by done.
      rewrite (get_indices_padded _ _ _ _ Hb1 Ha1),
        (get_indices_padded _ _ _ _ Hb2 Ha2).
      apply pair_distance_shift.
    + by rewrite !(find_distance_multi_raise mt _ counts e).
Qed.

Lemma X16_find_distance_reads_matching_terms_witness :
  find_distance ["a"; "b"]
    ["a"; "c"; "c"; "c"; "b"; "c"; "c"; "c"; "c"; "c"; "a"; "b"]
    {[ "a" := 7; "b" := 3 ]}
  = find_distance ["a"; "b"]
      ["a"; "c"; "c"; "c"; "b"; "c"; "c"; "c"; "c"; "c"; "a"; "b"]
      {[ "a" := 7; "b" := 3; "c" := 1 ]}.
Proof.
  apply X16_find_distance_reads_matching_terms.
  intros t Ht. each_term Ht; by vm_compute.
Defined.

Lemma X17_vanilla_scale_invariant_witness :
  vanilla ["love"] 5 3
    (scale_counts 3 {[ "love" := 1; "peace" := 9 ]})
    (scale_counts 7 {[ "love" := 2; "war" := 8 ]})
  = vanilla ["love"] 5 3
      {[ "love" := 1; "peace" := 9 ]} {[ "love" := 2; "war" := 8 ]}.
Proof.
  apply X17_vanilla_scale_invariant.
  - done.
  - lia.
  - lia.
  - lia.
  - intros t Ht. each_term Ht. exists 2. by vm_compute.
  - intros t Ht. each_term Ht. exists 1. by vm_compute.
  - by vm_compute.
  - by vm_compute.
Defined.


Lemma X19_find_distance_padding_witness :
  find_distance ["x"] (["a"; "b"] ++ ["x"; "c"; "x"] ++ ["d"]) ∅
  = find_distance ["x"] ["x"; "c"; "x"] ∅.
Proof.
  apply X19_find_distance_padding.
  - by apply (bool_decide_unpack _).
  - intros t Ht. each_term Ht. split; by apply (bool_decide_unpack _).
Defined.
